(** * zephyr_ble: the sample cache, the mock sensor and the BLE transmit path

    A shallow embedding of [src/inc/mem_cache.h], [src/src/mem_cache.c],
    [src/src/sensor_mock.c] and [src/src/main.c].

    - C integers are [Z] with their wrap-around written out
      ([size_t_wrap], [uint32_t_wrap], [uint16_t_wrap]).
    - [double] is Rocq's primitive binary64 [float]; the libm and Zephyr calls
      the code makes ([ldexp], [memcpy], [rand], [atomic_set_bit], ...) are
      modelled by their documented behaviour.
    - The module-level [cache] and [app_data] objects are passed explicitly.
      Each [mem_cache_*] call runs under the cache mutex from its first to its
      last statement, so one call is one atomic state transformer. *)

From Stdlib Require Import ZArith QArith Floats Lia Bool.
From stdpp Require Import base list.

Local Open Scope Z_scope.

(* ===================================================================== *)
(** * Definitions                                                         *)
(* ===================================================================== *)

(** ** Fixed-width integers *)

Definition uint16_t_wrap (z : Z) : Z := z mod 2 ^ 16.
Definition uint32_t_wrap (z : Z) : Z := z mod 2 ^ 32.

(** ** [mem_cache.h] *)

Definition IMU_SAMPLE_LEN : nat := 20.
Definition TEMP_SAMPLE_LEN : nat := 3.

(** [sensor_sample_t]: [uint32_t imu[IMU_SAMPLE_LEN]; double temp[TEMP_SAMPLE_LEN]]. *)
Record sensor_sample_t : Type := {
  imu : list Z;
  temp : list float
}.

(** ** [sensor_mock.c]: the half-precision decoder *)

(** [(double)mant] for an unsigned 16-bit [mant]. *)
Definition double_of_uint16 (z : Z) : float :=
  PrimFloat.of_uint63 (Uint63.of_Z z).

(** [uint16_to_double], the branch compiled with [UINT16_TO_DOUBLE_SCALABLE 0].
    [ldexp] is [Z.ldexp]; [sign ? -value : value] tests [sign] against 0. *)
Definition uint16_to_double (u16 : Z) : float :=
  let sign := Z.land (Z.shiftr u16 15) 1 in
  let exp := Z.land (Z.shiftr u16 10) 31 in
  let mant := Z.land u16 1023 in
  if exp =? 0 then
    let value := Z.ldexp (double_of_uint16 mant) (-24) in
    if sign =? 0 then value else PrimFloat.opp value
  else if exp =? 31 then
    if mant =? 0
    then (if sign =? 0 then infinity else neg_infinity)
    else nan
  else
    let value :=
      Z.ldexp (PrimFloat.add 1%float
                 (PrimFloat.div (double_of_uint16 mant) 1024%float))
              (exp - 15) in
    if sign =? 0 then value else PrimFloat.opp value.

(** The three bit fields of a half-precision pattern. *)
Definition f16_sign (u16 : Z) : bool := Z.testbit u16 15.
Definition f16_exp (u16 : Z) : Z := Z.land (Z.shiftr u16 10) 31.
Definition f16_mant (u16 : Z) : Z := Z.land u16 1023.

(** [is_double f neg q]: [f] is the finite double whose sign bit is [neg]
    and whose magnitude is exactly the rational [q]. *)
Definition is_double (f : float) (neg : bool) (q : Q) : Prop :=
  match Prim2SF f with
  | S754_zero s => s = neg /\ (q == 0)%Q
  | S754_finite s m e => s = neg /\ (q == inject_Z (Z.pos m) * 2 ^ e)%Q
  | _ => False
  end.

Definition is_doubleb (f : float) (neg : bool) (q : Q) : bool :=
  match Prim2SF f with
  | S754_zero s => Bool.eqb s neg && Qeq_bool q 0
  | S754_finite s m e =>
      Bool.eqb s neg && Qeq_bool q (inject_Z (Z.pos m) * 2 ^ e)
  | _ => false
  end.

(** The magnitude the decoder is to produce for a finite pattern. *)
Definition f16_magnitude (u16 : Z) : Q :=
  if f16_exp u16 =? 0
  then (inject_Z (f16_mant u16) * 2 ^ (-24))%Q
  else ((1 + inject_Z (f16_mant u16) / 1024) * 2 ^ (f16_exp u16 - 15))%Q.

Definition decode_finite_ok (u16 : Z) : bool :=
  if f16_exp u16 =? 31 then true
  else is_doubleb (uint16_to_double u16) (f16_sign u16) (f16_magnitude u16).

(** The largest finite half-precision value, 0x7BFF. *)
Definition F16_MAX : Q := 65504.

Definition decode_bounded_ok (u16 : Z) : bool :=
  if f16_exp u16 =? 31 then true
  else Qle_bool (f16_magnitude u16) F16_MAX.

(** The magnitude grows from one non-negative finite pattern to the next. *)
Definition decode_step_ok (u16 : Z) : bool :=
  if u16 <? 0x7BFF
  then negb (Qle_bool (f16_magnitude (u16 + 1)) (f16_magnitude u16))
  else true.

(** [forall_range n base P]: [P] holds at [base], ..., [base + 2^n - 1]. *)
Fixpoint forall_range (n : nat) (base : Z) (P : Z -> bool) : bool :=
  match n with
  | O => P base
  | S n' =>
      forall_range n' base P && forall_range n' (base + 2 ^ Z.of_nat n') P
  end.

(** A sample with every channel derived from [k], for the examples. *)
Definition sample_of (k : Z) : sensor_sample_t :=
  {| imu := replicate IMU_SAMPLE_LEN (uint32_t_wrap k);
     temp := replicate TEMP_SAMPLE_LEN (uint16_to_double (uint16_t_wrap k)) |}.

(** A linear congruential [rand], for the examples. *)
Definition rand_lcg (g : Z) : Z * Z :=
  let g' := (1103515245 * g + 12345) mod 2 ^ 31 in (g', g').

(** [SIZE_MAX] of a target with a 32-bit [size_t], for the examples. *)
Definition SIZE_MAX_32 : Z := 4294967295.

(** ** [mem_cache.c]: the FIFO cache *)

(** [struct mem_cache_t].  The [lock] member only serialises the calls and
    carries no data of its own. *)
Record mem_cache_t : Type := {
  data : list sensor_sample_t;
  write_idx : Z;
  read_idx : Z;
  count : Z
}.

(** ** [main.c]: application data and log lines *)

(** [app_data_t].  [current_conn] is the connection pointer, 0 for [NULL];
    [state] is the atomic bitmap.  The [tx_timer] member is the kernel timer
    object and holds no application data. *)
Record app_data_t : Type := {
  current_conn : Z;
  notify_enabled : bool;
  state : Z
}.

(** The lines the three files send to the logging subsystem. *)
Inductive log_msg : Type :=
| LOG_WRN_cache_full
| LOG_WRN_notify_failed (err : Z)
| LOG_INF_notifications (enabled : bool)
| LOG_ERR_connection_failed (err : Z)
| LOG_INF_connected
| LOG_INF_disconnected (reason : Z)
| LOG_INF_starting
| LOG_INF_service_initialized
| LOG_ERR_bt_enable_failed (err : Z)
| LOG_INF_starting_advertising
| LOG_ERR_advertising_failed (err : Z).

(** The calls one activation of [tx_timer_handler] makes, with what they
    returned. *)
Inductive tx_call : Type :=
| CallPop (ok : bool)
| CallNotify (conn : Z) (sample : sensor_sample_t) (err : Z)
| CallPush (sample : sensor_sample_t) (ok : bool).

(** What surrounds one activation of [tx_timer_handler]: the indeterminate
    initial content of its local [sample], the transport, and what the other
    contexts (the sampling timer) do to the cache while [bt_gatt_notify]
    runs, when no cache call of the handler holds the mutex. *)
Record tx_env : Type := {
  stack_sample : sensor_sample_t;
  bt_gatt_notify : Z -> sensor_sample_t -> Z;
  during_notify : mem_cache_t -> mem_cache_t
}.

Definition STATE_DISCONNECTED : Z := 0.
Definition STATE_CONNECTED : Z := 1.
Definition BT_GATT_CCC_NOTIFY : Z := 1.

(** Zephyr's [atomic_set_bit] and [atomic_test_and_clear_bit] on one
    [atomic_t] word. *)
Definition atomic_set_bit (target bit : Z) : Z := Z.setbit target bit.
Definition atomic_test_and_clear_bit (target bit : Z) : bool * Z :=
  (Z.testbit target bit, Z.clearbit target bit).

(** A cache of four slots holding two samples across the wrap-around, a
    transport whose [bt_gatt_notify] returns [err] while nothing else
    touches the cache, and a connected, subscribed [app_data]: the inputs of
    the examples. *)
Definition example_cache : mem_cache_t :=
  {| data := [sample_of 1; sample_of 2; sample_of 3; sample_of 4];
     write_idx := 1; read_idx := 3; count := 2 |}.

Definition example_env (err : Z) : tx_env :=
  {| stack_sample := sample_of 0;
     bt_gatt_notify := fun _ _ => err;
     during_notify := fun c => c |}.

Definition example_app : app_data_t :=
  {| current_conn := 5; notify_enabled := true; state := 0 |}.

(** The operations applied to the cache in a run, and what each returned. *)
Inductive cache_op : Type :=
| OpPush (sample : sensor_sample_t)
| OpPop (out : sensor_sample_t).

Inductive cache_res : Type :=
| ResPush (sample : sensor_sample_t) (ok : bool)
| ResPop (ok : bool) (out : sensor_sample_t).

(** Samples passed to a push, accepted or not. *)
Definition pushed (tr : list cache_res) : list sensor_sample_t :=
  flat_map (fun r => match r with ResPush s _ => [s] | _ => [] end) tr.

(** Samples of the pushes that returned [true]. *)
Definition accepted (tr : list cache_res) : list sensor_sample_t :=
  flat_map (fun r => match r with ResPush s true => [s] | _ => [] end) tr.

(** Samples returned by the pops that returned [true]. *)
Definition popped (tr : list cache_res) : list sensor_sample_t :=
  flat_map (fun r => match r with ResPop true s => [s] | _ => [] end) tr.

(** No push of the run was rejected. *)
Definition no_rejection (tr : list cache_res) : bool :=
  forallb (fun r => match r with ResPush _ ok => ok | _ => true end) tr.

Section Firmware.

(** [CONFIG_CACHE_SIZE] comes from Kconfig and [SIZE_MAX] from the target's
    ABI; neither is fixed by the sources. *)
Variable CONFIG_CACHE_SIZE : Z.
Variable SIZE_MAX : Z.

Definition size_t_wrap (z : Z) : Z := z mod (SIZE_MAX + 1).

(** [mem_cache_push].  [memcpy] into [data[write_idx]] is the list update;
    an index outside the array has no meaning in C and is a no-op here
    ([mem_cache_inv] shows that no reachable state has one). *)
Definition mem_cache_push (sample : sensor_sample_t) (cache : mem_cache_t)
  : bool * mem_cache_t :=
  if count cache =? CONFIG_CACHE_SIZE then (false, cache)
  else
    (true,
     {| data := <[ Z.to_nat (write_idx cache) := sample ]> (data cache);
        write_idx := size_t_wrap (write_idx cache + 1) mod CONFIG_CACHE_SIZE;
        read_idx := read_idx cache;
        count := size_t_wrap (count cache + 1) |}).

(** [mem_cache_pop].  [out] is the content of the caller's buffer before
    the call; the second component is its content after the call. *)
Definition mem_cache_pop (out : sensor_sample_t) (cache : mem_cache_t)
  : bool * sensor_sample_t * mem_cache_t :=
  if count cache =? 0 then (false, out, cache)
  else
    (true,
     default out (data cache !! Z.to_nat (read_idx cache)),
     {| data := data cache;
        write_idx := write_idx cache;
        read_idx := size_t_wrap (read_idx cache + 1) mod CONFIG_CACHE_SIZE;
        count := size_t_wrap (count cache - 1) |}).

(** [mem_cache_count]: the value returned and the cache after the call. *)
Definition mem_cache_count (cache : mem_cache_t) : Z * mem_cache_t :=
  (count cache, cache).

(** [mem_cache_init] resets the three counters and leaves the slots. *)
Definition mem_cache_init (cache : mem_cache_t) : mem_cache_t :=
  {| data := data cache; write_idx := 0; read_idx := 0; count := 0 |}.

(** The zero-filled static storage of [cache] before [SYS_INIT] runs. *)
Definition sample_zero : sensor_sample_t :=
  {| imu := replicate IMU_SAMPLE_LEN 0;
     temp := replicate TEMP_SAMPLE_LEN 0%float |}.

Definition cache_static : mem_cache_t :=
  {| data := replicate (Z.to_nat CONFIG_CACHE_SIZE) sample_zero;
     write_idx := 0; read_idx := 0; count := 0 |}.

(** A run of pushes and pops, with the result of each call. *)
Fixpoint run_ops (ops : list cache_op) (cache : mem_cache_t)
  : list cache_res * mem_cache_t :=
  match ops with
  | [] => ([], cache)
  | OpPush s :: ops' =>
      let '(ok, cache') := mem_cache_push s cache in
      let '(tr, cache'') := run_ops ops' cache' in
      (ResPush s ok :: tr, cache'')
  | OpPop out :: ops' =>
      let '(ok, out', cache') := mem_cache_pop out cache in
      let '(tr, cache'') := run_ops ops' cache' in
      (ResPop ok out' :: tr, cache'')
  end.

(** The [n] slots read from cursor [i] on, wrapping at the end of the
    array: the order in which [mem_cache_pop] would return them. *)
Fixpoint ring_read (slots : list sensor_sample_t) (i : Z) (n : nat)
  : list sensor_sample_t :=
  match n with
  | O => []
  | S n' =>
      match slots !! Z.to_nat i with
      | Some s => s :: ring_read slots ((i + 1) mod CONFIG_CACHE_SIZE) n'
      | None => []
      end
  end.

(** The queued samples, oldest first. *)
Definition contents (cache : mem_cache_t) : list sensor_sample_t :=
  ring_read (data cache) (read_idx cache) (Z.to_nat (count cache)).

(** The representation invariant of the ring. *)
Definition mem_cache_inv (cache : mem_cache_t) : Prop :=
  length (data cache) = Z.to_nat CONFIG_CACHE_SIZE /\
  0 <= read_idx cache < CONFIG_CACHE_SIZE /\
  0 <= count cache <= CONFIG_CACHE_SIZE /\
  write_idx cache = (read_idx cache + count cache) mod CONFIG_CACHE_SIZE.

(** [queue_is cache l]: a well-formed cache whose queued samples are [l]. *)
Definition queue_is (cache : mem_cache_t) (l : list sensor_sample_t) : Prop :=
  mem_cache_inv cache /\ contents cache = l.

(** *** [sensor_mock.c]: the sampling timer *)

(** [rand()] with its hidden generator state made explicit. *)
Variable rand_state : Type.
Variable rand : rand_state -> Z * rand_state.

(** The first loop of [sample_timer_handler]: [sample.imu[i] = rand()]. *)
Fixpoint gen_imu (n : nat) (g : rand_state) : list Z * rand_state :=
  match n with
  | O => ([], g)
  | S n' =>
      let '(r, g1) := rand g in
      let '(rest, g2) := gen_imu n' g1 in
      (uint32_t_wrap r :: rest, g2)
  end.

(** The second loop: [uint16_t raw = rand(); sample.temp[i] =
    uint16_to_double(raw)]. *)
Fixpoint gen_temp (n : nat) (g : rand_state) : list float * rand_state :=
  match n with
  | O => ([], g)
  | S n' =>
      let '(r, g1) := rand g in
      let raw := uint16_t_wrap r in
      let '(rest, g2) := gen_temp n' g1 in
      (uint16_to_double raw :: rest, g2)
  end.

Definition gen_sample (g : rand_state) : sensor_sample_t * rand_state :=
  let '(imu_vals, g1) := gen_imu IMU_SAMPLE_LEN g in
  let '(temp_vals, g2) := gen_temp TEMP_SAMPLE_LEN g1 in
  ({| imu := imu_vals; temp := temp_vals |}, g2).

(** [sample_timer_handler]. *)
Definition sample_timer_handler (g : rand_state) (cache : mem_cache_t)
  : rand_state * mem_cache_t * list log_msg :=
  let '(sample, g') := gen_sample g in
  let '(ok, cache') := mem_cache_push sample cache in
  if negb ok then (g', cache', [LOG_WRN_cache_full])
  else (g', cache', []).

(** *** [main.c] *)

(** [tx_timer_handler]: the cache after the activation, the lines logged
    and the calls made. *)
Definition tx_timer_handler (env : tx_env) (app : app_data_t)
                            (cache : mem_cache_t)
  : mem_cache_t * list log_msg * list tx_call :=
  if (current_conn app =? 0) || negb (notify_enabled app)
  then (cache, [], [])
  else
    let '(ok, sample, cache1) := mem_cache_pop (stack_sample env) cache in
    if negb ok then (cache1, [], [CallPop false])
    else
      let err := bt_gatt_notify env (current_conn app) sample in
      let cache2 := during_notify env cache1 in
      if err =? 0
      then (cache2, [],
            [CallPop true; CallNotify (current_conn app) sample err])
      else
        let '(requeued, cache3) := mem_cache_push sample cache2 in
        (cache3, [LOG_WRN_notify_failed err],
         [CallPop true; CallNotify (current_conn app) sample err;
          CallPush sample requeued]).

(** [ccc_cfg_changed]. *)
Definition ccc_cfg_changed (value : Z) (app : app_data_t)
  : app_data_t * list log_msg :=
  let enabled := value =? BT_GATT_CCC_NOTIFY in
  ({| current_conn := current_conn app;
      notify_enabled := enabled;
      state := state app |},
   [LOG_INF_notifications enabled]).

(** Zephyr's [bt_conn_ref]: the pointer it returns. *)
Variable bt_conn_ref : Z -> Z.

(** [connected].  The MTU exchange it starts does not touch [app_data]. *)
Definition connected (conn : Z) (err : Z) (app : app_data_t)
  : app_data_t * list log_msg :=
  if negb (err =? 0) then (app, [LOG_ERR_connection_failed err])
  else
    ({| current_conn := bt_conn_ref conn;
        notify_enabled := notify_enabled app;
        state := atomic_set_bit (state app) STATE_CONNECTED |},
     [LOG_INF_connected]).

(** [disconnected]: [current_conn] is [NULL] afterwards, whether the branch
    that releases the reference ran or the pointer was [NULL] already. *)
Definition disconnected (reason : Z) (app : app_data_t)
  : app_data_t * list log_msg :=
  ({| current_conn := 0;
      notify_enabled := notify_enabled app;
      state := atomic_set_bit (state app) STATE_DISCONNECTED |},
   [LOG_INF_disconnected reason]).

(** One pass of the [while (1)] loop of [main], after its [k_sleep].
    [adv_err] is what [bt_le_adv_start] returns if the pass calls it.
    [None] is the [return 0] that leaves [main]. *)
Definition main_loop_pass (adv_err : Z) (app : app_data_t)
  : option app_data_t * list log_msg :=
  let '(was_connected, st1) :=
    atomic_test_and_clear_bit (state app) STATE_CONNECTED in
  let app1 := {| current_conn := current_conn app;
                 notify_enabled := notify_enabled app;
                 state := st1 |} in
  if was_connected then (Some app1, [])
  else
    let '(was_disconnected, st2) :=
      atomic_test_and_clear_bit st1 STATE_DISCONNECTED in
    let app2 := {| current_conn := current_conn app;
                   notify_enabled := notify_enabled app;
                   state := st2 |} in
    if was_disconnected then
      if negb (adv_err =? 0)
      then (None, [LOG_INF_starting_advertising;
                   LOG_ERR_advertising_failed adv_err])
      else (Some app2, [LOG_INF_starting_advertising])
    else (Some app2, []).

(** The passes of the loop, one [bt_le_adv_start] result per pass, until
    the results run out or [main] returns. *)
Fixpoint main_loop (adv_errs : list Z) (app : app_data_t)
  : option app_data_t * list log_msg :=
  match adv_errs with
  | [] => (Some app, [])
  | e :: rest =>
      match main_loop_pass e app with
      | (Some app', l) =>
          let '(r, l') := main_loop rest app' in (r, l ++ l')
      | (None, l) => (None, l)
      end
  end.

(** [main] up to its loop: [ble_service_init] starts the transmit timer and
    logs its line, then [bt_enable] returns [enable_err]. *)
Definition main_start (enable_err : Z) (app : app_data_t)
  : option app_data_t * list log_msg :=
  if negb (enable_err =? 0)
  then (None, [LOG_INF_starting; LOG_INF_service_initialized;
               LOG_ERR_bt_enable_failed enable_err])
  else
    (Some {| current_conn := current_conn app;
             notify_enabled := notify_enabled app;
             state := atomic_set_bit (state app) STATE_DISCONNECTED |},
     [LOG_INF_starting; LOG_INF_service_initialized]).

(** The zero-filled static [app_data]. *)
Definition app_data_static : app_data_t :=
  {| current_conn := 0; notify_enabled := false; state := 0 |}.


(* =================================================================== *)
(** * The cache: one call                                               *)
(* =================================================================== *)

Lemma push_full_result (sample : sensor_sample_t) (cache : mem_cache_t) :
  count cache = CONFIG_CACHE_SIZE ->
  mem_cache_push sample cache = (false, cache).
Proof.
  intros Hfull. unfold mem_cache_push.
  rewrite Hfull, Z.eqb_refl. reflexivity.
Qed.

Lemma pop_empty_result (out : sensor_sample_t) (cache : mem_cache_t) :
  count cache = 0 ->
  mem_cache_pop out cache = (false, out, cache).
Proof.
  intros Hempty. unfold mem_cache_pop.
  rewrite Hempty. reflexivity.
Qed.

(** C1. A push on a full cache ([count == CONFIG_CACHE_SIZE]) returns
    [false] and returns the cache it was given: count, write cursor, read
    cursor and every slot are as before, so no older entry is evicted. *)
Theorem mem_cache_push_full_unchanged
    (sample : sensor_sample_t) (cache : mem_cache_t) :
  count cache = CONFIG_CACHE_SIZE ->
  mem_cache_push sample cache = (false, cache).
Proof.
  intros Hfull. unfold mem_cache_push.
  rewrite Hfull, Z.eqb_refl. reflexivity.
Qed.

(** C2. A pop on an empty cache ([count == 0]) returns [false], the
    "empty" outcome, and returns the cache it was given: count, both
    cursors and all slots are as before. *)
Theorem mem_cache_pop_empty_unchanged
    (out : sensor_sample_t) (cache : mem_cache_t) :
  count cache = 0 ->
  (mem_cache_pop out cache).1.1 = false /\
  (mem_cache_pop out cache).2 = cache.
Proof.
  intros Hempty. unfold mem_cache_pop.
  rewrite Hempty. simpl. split; reflexivity.
Qed.

(** C10. A pop on an empty cache never writes through [out]: the caller's
    buffer holds after the call exactly what it held before, and the call
    returns [false]. *)
Theorem mem_cache_pop_empty_out_untouched
    (out : sensor_sample_t) (cache : mem_cache_t) :
  count cache = 0 ->
  (mem_cache_pop out cache).1 = (false, out).
Proof.
  intros Hempty. unfold mem_cache_pop.
  rewrite Hempty. reflexivity.
Qed.

(** C8. With no connection ([current_conn == NULL]) or with notifications
    not enabled, an activation of [tx_timer_handler] is a no-op: it makes
    no call at all (so no pop), logs nothing and leaves the cache exactly
    as it was. *)
Theorem tx_timer_handler_gated_noop
    (env : tx_env) (app : app_data_t) (cache : mem_cache_t) :
  current_conn app = 0 \/ notify_enabled app = false ->
  tx_timer_handler env app cache = (cache, [], []).
Proof.
  intros [Hconn | Hoff]; unfold tx_timer_handler.
  - rewrite Hconn. reflexivity.
  - rewrite Hoff, orb_true_r. reflexivity.
Qed.

(* =================================================================== *)
(** * The cache as a queue                                              *)
(* =================================================================== *)

(** The Kconfig value is a positive array length that [size_t] can hold. *)
Hypothesis cache_size_ok : 0 < CONFIG_CACHE_SIZE <= SIZE_MAX.

Lemma mod_cache_size_cases (a : Z) :
  0 <= a < 2 * CONFIG_CACHE_SIZE ->
  a mod CONFIG_CACHE_SIZE =
    if a <? CONFIG_CACHE_SIZE then a else a - CONFIG_CACHE_SIZE.
Proof using cache_size_ok.
  intros Ha. destruct (Z.ltb_spec a CONFIG_CACHE_SIZE).
  - apply Z.mod_small. lia.
  - symmetry. apply (Z.mod_unique _ _ 1); lia.
Qed.

Lemma size_t_wrap_small (z : Z) : 0 <= z <= SIZE_MAX -> size_t_wrap z = z.
Proof. intros Hz. unfold size_t_wrap. apply Z.mod_small. lia. Qed.

Lemma cursor_step_in_range (i : Z) :
  0 <= (i + 1) mod CONFIG_CACHE_SIZE < CONFIG_CACHE_SIZE.
Proof using cache_size_ok. apply Z.mod_pos_bound. lia. Qed.

Lemma cursor_shift (i k : Z) :
  ((i + 1) mod CONFIG_CACHE_SIZE + k) mod CONFIG_CACHE_SIZE =
  (i + (k + 1)) mod CONFIG_CACHE_SIZE.
Proof using cache_size_ok.
  rewrite Z.add_mod_idemp_l by lia. f_equal. lia.
Qed.

(** Reading [n] slots does not see a write to the slot that follows them. *)
Lemma ring_read_insert_next
    (slots : list sensor_sample_t) (s : sensor_sample_t) (n : nat) :
  forall i : Z,
    0 <= i < CONFIG_CACHE_SIZE ->
    Z.of_nat n < CONFIG_CACHE_SIZE ->
    ring_read
      (<[ Z.to_nat ((i + Z.of_nat n) mod CONFIG_CACHE_SIZE) := s ]> slots)
      i n
    = ring_read slots i n.
Proof using cache_size_ok.
  induction n as [|n IH]; intros i Hi Hn; [reflexivity|].
  cbn [ring_read].
  rewrite list_lookup_insert_ne.
  2:{ rewrite mod_cache_size_cases by lia.
      destruct (Z.ltb_spec (i + Z.of_nat (S n)) CONFIG_CACHE_SIZE); lia. }
  destruct (slots !! Z.to_nat i) as [x|]; [|reflexivity].
  f_equal.
  replace ((i + Z.of_nat (S n)) mod CONFIG_CACHE_SIZE)
    with (((i + 1) mod CONFIG_CACHE_SIZE + Z.of_nat n) mod CONFIG_CACHE_SIZE).
  - apply IH; [apply cursor_step_in_range | lia].
  - rewrite cursor_shift. f_equal. lia.
Qed.

(** Reading one slot more appends that slot. *)
Lemma ring_read_snoc
    (slots : list sensor_sample_t) (s : sensor_sample_t) (n : nat) :
  forall i : Z,
    length slots = Z.to_nat CONFIG_CACHE_SIZE ->
    0 <= i < CONFIG_CACHE_SIZE ->
    slots !! Z.to_nat ((i + Z.of_nat n) mod CONFIG_CACHE_SIZE) = Some s ->
    ring_read slots i (S n) = ring_read slots i n ++ [s].
Proof using cache_size_ok.
  induction n as [|n IH]; intros i Hlen Hi Hs.
  - cbn [ring_read]. rewrite Z.add_0_r, Z.mod_small in Hs by lia.
    rewrite Hs. reflexivity.
  - change (ring_read slots i (S (S n))) with
      (match slots !! Z.to_nat i with
       | Some x =>
           x :: ring_read slots ((i + 1) mod CONFIG_CACHE_SIZE) (S n)
       | None => []
       end).
    cbn [ring_read].
    destruct (slots !! Z.to_nat i) as [x|] eqn:Hx.
    + rewrite <- app_comm_cons. f_equal.
      apply IH; [exact Hlen | apply cursor_step_in_range |].
      rewrite cursor_shift.
      replace (Z.of_nat n + 1) with (Z.of_nat (S n)) by lia. exact Hs.
    + apply lookup_ge_None in Hx. lia.
Qed.

Lemma ring_read_length (slots : list sensor_sample_t) (n : nat) :
  forall i : Z,
    length slots = Z.to_nat CONFIG_CACHE_SIZE ->
    0 <= i < CONFIG_CACHE_SIZE ->
    length (ring_read slots i n) = n.
Proof using cache_size_ok.
  induction n as [|n IH]; intros i Hlen Hi; [reflexivity|].
  cbn [ring_read].
  destruct (slots !! Z.to_nat i) as [x|] eqn:Hx.
  - cbn [length]. f_equal. apply IH; [exact Hlen | apply cursor_step_in_range].
  - apply lookup_ge_None in Hx. lia.
Qed.

Lemma mem_cache_init_inv (cache : mem_cache_t) :
  length (data cache) = Z.to_nat CONFIG_CACHE_SIZE ->
  mem_cache_inv (mem_cache_init cache).
Proof using cache_size_ok.
  intros Hlen. unfold mem_cache_inv, mem_cache_init. cbn.
  rewrite Z.mod_0_l by lia. repeat split; lia || exact Hlen.
Qed.

Lemma write_idx_in_range (cache : mem_cache_t) :
  mem_cache_inv cache -> 0 <= write_idx cache < CONFIG_CACHE_SIZE.
Proof using cache_size_ok.
  intros (_ & _ & _ & Hw). rewrite Hw. apply Z.mod_pos_bound. lia.
Qed.

Lemma contents_length (cache : mem_cache_t) :
  mem_cache_inv cache ->
  length (contents cache) = Z.to_nat (count cache).
Proof using cache_size_ok.
  intros (Hlen & Hr & _ & _). unfold contents.
  apply ring_read_length; assumption.
Qed.

Lemma push_ok_result (s : sensor_sample_t) (cache : mem_cache_t) :
  mem_cache_inv cache -> count cache <> CONFIG_CACHE_SIZE ->
  mem_cache_push s cache =
    (true,
     {| data := <[ Z.to_nat (write_idx cache) := s ]> (data cache);
        write_idx := (write_idx cache + 1) mod CONFIG_CACHE_SIZE;
        read_idx := read_idx cache;
        count := count cache + 1 |}).
Proof using cache_size_ok.
  intros Hinv Hnf. pose proof (write_idx_in_range _ Hinv) as Hw.
  destruct Hinv as (Hlen & Hr & Hc & _).
  unfold mem_cache_push.
  destruct (Z.eqb_spec (count cache) CONFIG_CACHE_SIZE); [contradiction|].
  rewrite !size_t_wrap_small by lia. reflexivity.
Qed.

Lemma pop_ok_result (out : sensor_sample_t) (cache : mem_cache_t) :
  mem_cache_inv cache -> count cache <> 0 ->
  exists s,
    data cache !! Z.to_nat (read_idx cache) = Some s /\
    mem_cache_pop out cache =
      (true, s,
       {| data := data cache;
          write_idx := write_idx cache;
          read_idx := (read_idx cache + 1) mod CONFIG_CACHE_SIZE;
          count := count cache - 1 |}).
Proof using cache_size_ok.
  intros (Hlen & Hr & Hc & _) Hne.
  destruct (data cache !! Z.to_nat (read_idx cache)) as [s|] eqn:Hs.
  2:{ apply lookup_ge_None in Hs. lia. }
  exists s. split; [reflexivity|].
  unfold mem_cache_pop.
  destruct (Z.eqb_spec (count cache) 0); [contradiction|].
  rewrite Hs, !size_t_wrap_small by lia. reflexivity.
Qed.

Lemma push_ok_inv (s : sensor_sample_t) (cache : mem_cache_t) :
  mem_cache_inv cache -> count cache <> CONFIG_CACHE_SIZE ->
  mem_cache_inv (mem_cache_push s cache).2.
Proof using cache_size_ok.
  intros Hinv Hnf. rewrite push_ok_result by assumption.
  destruct Hinv as (Hlen & Hr & Hc & Hw).
  unfold mem_cache_inv. cbn.
  rewrite length_insert, Hw, Z.add_mod_idemp_l by lia.
  repeat split; try lia. f_equal. lia.
Qed.

Lemma push_ok_contents (s : sensor_sample_t) (cache : mem_cache_t) :
  mem_cache_inv cache -> count cache <> CONFIG_CACHE_SIZE ->
  contents (mem_cache_push s cache).2 = contents cache ++ [s].
Proof using cache_size_ok.
  intros Hinv Hnf. rewrite push_ok_result by assumption.
  pose proof (write_idx_in_range _ Hinv) as Hwr.
  destruct Hinv as (Hlen & Hr & Hc & Hw).
  unfold contents. cbn.
  replace (Z.to_nat (count cache + 1)) with (S (Z.to_nat (count cache))) by lia.
  assert (Hwn : write_idx cache =
                (read_idx cache + Z.of_nat (Z.to_nat (count cache)))
                  mod CONFIG_CACHE_SIZE).
  { rewrite Hw. f_equal. lia. }
  rewrite (ring_read_snoc _ s).
  - f_equal. rewrite Hwn. apply ring_read_insert_next; lia.
  - rewrite length_insert. exact Hlen.
  - exact Hr.
  - rewrite <- Hwn. apply list_lookup_insert_eq. lia.
Qed.

Lemma pop_ok_inv (out : sensor_sample_t) (cache : mem_cache_t) :
  mem_cache_inv cache -> count cache <> 0 ->
  mem_cache_inv (mem_cache_pop out cache).2.
Proof using cache_size_ok.
  intros Hinv Hne.
  destruct (pop_ok_result out _ Hinv Hne) as (s & _ & ->).
  destruct Hinv as (Hlen & Hr & Hc & Hw).
  unfold mem_cache_inv. cbn.
  rewrite Z.add_mod_idemp_l by lia.
  repeat split; try lia; try apply cursor_step_in_range.
  rewrite Hw. f_equal. lia.
Qed.

Lemma pop_ok_contents (out : sensor_sample_t) (cache : mem_cache_t) :
  mem_cache_inv cache -> count cache <> 0 ->
  contents cache =
    (mem_cache_pop out cache).1.2 :: contents (mem_cache_pop out cache).2.
Proof using cache_size_ok.
  intros Hinv Hne.
  destruct (pop_ok_result out _ Hinv Hne) as (s & Hs & ->).
  destruct Hinv as (Hlen & Hr & Hc & Hw).
  unfold contents. cbn.
  replace (Z.to_nat (count cache)) with (S (Z.to_nat (count cache - 1))) by lia.
  cbn [ring_read]. rewrite Hs. reflexivity.
Qed.

(** What a run does to a cache that satisfies the invariant: the invariant
    is kept, and the samples queued before plus the samples accepted are
    the samples popped plus the samples still queued, in this order. *)
Lemma run_ops_queue (ops : list cache_op) :
  forall cache : mem_cache_t,
    mem_cache_inv cache ->
    mem_cache_inv (run_ops ops cache).2 /\
    contents cache ++ accepted (run_ops ops cache).1 =
      popped (run_ops ops cache).1 ++ contents (run_ops ops cache).2.
Proof using cache_size_ok.
  induction ops as [|[s|out] ops IH]; intros cache Hinv.
  - cbn. split; [exact Hinv | apply app_nil_r].
  - cbn [run_ops].
    destruct (Z.eq_dec (count cache) CONFIG_CACHE_SIZE) as [Hfull|Hnf].
    + rewrite (push_full_result s cache Hfull).
      destruct (run_ops ops cache) as [tr c'] eqn:Hrun.
      specialize (IH cache Hinv). rewrite Hrun in IH. cbn in *. exact IH.
    + pose proof (push_ok_inv s _ Hinv Hnf) as Hinv'.
      pose proof (push_ok_contents s _ Hinv Hnf) as Hcont.
      rewrite (push_ok_result s _ Hinv Hnf) in *. cbn [snd] in *.
      match goal with |- context [run_ops ops ?c] =>
        specialize (IH c Hinv'); destruct (run_ops ops c) as [tr c'] end.
      cbn in *. destruct IH as [IH1 IH2]. split; [exact IH1|].
      rewrite <- IH2, Hcont, <- app_assoc. reflexivity.
  - cbn [run_ops].
    destruct (Z.eq_dec (count cache) 0) as [Hempty|Hne].
    + rewrite (pop_empty_result out cache Hempty).
      destruct (run_ops ops cache) as [tr c'] eqn:Hrun.
      specialize (IH cache Hinv). rewrite Hrun in IH. cbn in *. exact IH.
    + pose proof (pop_ok_inv out _ Hinv Hne) as Hinv'.
      pose proof (pop_ok_contents out _ Hinv Hne) as Hcont.
      destruct (mem_cache_pop out cache) as [[ok s] c1] eqn:Hpop.
      destruct (pop_ok_result out _ Hinv Hne) as (s' & _ & Hres).
      rewrite Hpop in Hres. injection Hres as -> -> _.
      cbn [fst snd] in *.
      specialize (IH c1 Hinv'). destruct (run_ops ops c1) as [tr c'].
      cbn in *. destruct IH as [IH1 IH2]. split; [exact IH1|].
      rewrite Hcont. cbn. f_equal. exact IH2.
Qed.

Lemma run_ops_from_init (ops : list cache_op) (cache0 : mem_cache_t) :
  length (data cache0) = Z.to_nat CONFIG_CACHE_SIZE ->
  mem_cache_inv (run_ops ops (mem_cache_init cache0)).2 /\
  accepted (run_ops ops (mem_cache_init cache0)).1 =
    popped (run_ops ops (mem_cache_init cache0)).1 ++
    contents (run_ops ops (mem_cache_init cache0)).2.
Proof using cache_size_ok.
  intros Hlen.
  exact (run_ops_queue ops _ (mem_cache_init_inv _ Hlen)).
Qed.

Lemma no_rejection_accepted (tr : list cache_res) :
  no_rejection tr = true -> accepted tr = pushed tr.
Proof.
  induction tr as [|[s ok|ok s] tr IH]; cbn; intros H.
  - reflexivity.
  - apply andb_true_iff in H as [-> H]. cbn. f_equal. exact (IH H).
  - exact (IH H).
Qed.

(** C3. From the initial state (count 0, both cursors 0),
    at every point of every sequence of pushes and pops
    [0 <= count <= CONFIG_CACHE_SIZE], and count is the number of pushes
    that were accepted minus the number of successful pops so far. *)
Theorem run_ops_count_accepted_minus_popped
    (ops : list cache_op) (n : nat) (cache0 : mem_cache_t) :
  length (data cache0) = Z.to_nat CONFIG_CACHE_SIZE ->
  let r := run_ops (take n ops) (mem_cache_init cache0) in
  0 <= count r.2 <= CONFIG_CACHE_SIZE /\
  count r.2 =
    Z.of_nat (length (accepted r.1)) - Z.of_nat (length (popped r.1)).
Proof using cache_size_ok.
  intros Hlen r.
  destruct (run_ops_from_init (take n ops) cache0 Hlen) as [Hinv Hq].
  fold r in Hinv, Hq.
  pose proof (contents_length _ Hinv) as Hcl.
  destruct Hinv as (_ & _ & Hc & _).
  split; [exact Hc|].
  rewrite Hq, length_app, Hcl. lia.
Qed.

(** C4. FIFO order: in a run from the initial state in which no push is
    rejected, the samples returned by the successful pops are a prefix of
    the samples passed to the pushes, in the same order: the k-th successful
    pop returns the k-th pushed sample, the pushed samples not yet popped
    are the ones still queued, and when the run ends with the cache empty
    the two sequences are equal. *)
Theorem run_ops_fifo (ops : list cache_op) (cache0 : mem_cache_t) :
  length (data cache0) = Z.to_nat CONFIG_CACHE_SIZE ->
  let r := run_ops ops (mem_cache_init cache0) in
  no_rejection r.1 = true ->
  popped r.1 = take (length (popped r.1)) (pushed r.1) /\
  pushed r.1 = popped r.1 ++ contents r.2 /\
  (count r.2 = 0 -> popped r.1 = pushed r.1).
Proof using cache_size_ok.
  intros Hlen r Hrej.
  destruct (run_ops_from_init ops cache0 Hlen) as [Hinv Hq].
  fold r in Hinv, Hq.
  rewrite (no_rejection_accepted _ Hrej) in Hq.
  split; [|split].
  - rewrite Hq. symmetry. apply take_app_length.
  - exact Hq.
  - intros Hz. rewrite Hq. unfold contents. rewrite Hz. cbn.
    symmetry. apply app_nil_r.
Qed.

(* =================================================================== *)
(** * The cache against its queue of samples                            *)
(* =================================================================== *)

Lemma queue_is_count (cache : mem_cache_t) (l : list sensor_sample_t) :
  queue_is cache l -> count cache = Z.of_nat (length l).
Proof using cache_size_ok.
  intros [Hinv <-]. rewrite (contents_length _ Hinv).
  destruct Hinv as (_ & _ & Hc & _). lia.
Qed.


Lemma queue_push
    (s : sensor_sample_t) (cache : mem_cache_t) (l : list sensor_sample_t) :
  queue_is cache l ->
  Z.of_nat (length l) < CONFIG_CACHE_SIZE ->
  exists cache',
    mem_cache_push s cache = (true, cache') /\ queue_is cache' (l ++ [s]).
Proof using cache_size_ok.
  intros Hq Hroom. pose proof (queue_is_count _ _ Hq) as Hc.
  destruct Hq as [Hinv Hl].
  assert (Hnf : count cache <> CONFIG_CACHE_SIZE) by lia.
  pose proof (push_ok_inv s _ Hinv Hnf) as Hinv'.
  pose proof (push_ok_contents s _ Hinv Hnf) as Hcont.
  rewrite (push_ok_result s _ Hinv Hnf) in *. cbn [snd] in *.
  eexists. split; [reflexivity|]. split; [exact Hinv'|].
  rewrite Hcont, Hl. reflexivity.
Qed.

Lemma queue_push_full
    (s : sensor_sample_t) (cache : mem_cache_t) (l : list sensor_sample_t) :
  queue_is cache l ->
  Z.of_nat (length l) = CONFIG_CACHE_SIZE ->
  mem_cache_push s cache = (false, cache).
Proof using cache_size_ok.
  intros Hq Hfull. apply push_full_result.
  rewrite (queue_is_count _ _ Hq). exact Hfull.
Qed.

Lemma queue_pop
    (out s : sensor_sample_t) (cache : mem_cache_t) (l : list sensor_sample_t) :
  queue_is cache (s :: l) ->
  exists cache',
    mem_cache_pop out cache = (true, s, cache') /\ queue_is cache' l.
Proof using cache_size_ok.
  intros Hq. pose proof (queue_is_count _ _ Hq) as Hc. cbn in Hc.
  destruct Hq as [Hinv Hl].
  assert (Hne : count cache <> 0) by lia.
  pose proof (pop_ok_inv out _ Hinv Hne) as Hinv'.
  pose proof (pop_ok_contents out _ Hinv Hne) as Hcont.
  destruct (pop_ok_result out _ Hinv Hne) as (s' & _ & Hres).
  rewrite Hres in *. cbn [fst snd] in *.
  rewrite Hl in Hcont. injection Hcont as Hs Hrest. subst s'.
  eexists. split; [reflexivity|]. split; [exact Hinv' | symmetry; exact Hrest].
Qed.

Lemma queue_pop_empty (out : sensor_sample_t) (cache : mem_cache_t) :
  queue_is cache [] ->
  mem_cache_pop out cache = (false, out, cache).
Proof using cache_size_ok.
  intros Hq. apply pop_empty_result.
  rewrite (queue_is_count _ _ Hq). reflexivity.
Qed.


(* =================================================================== *)
(** * Further properties of the cache                                   *)
(* =================================================================== *)

(** X1. Memory safety of the ring: from the initial state, after any
    sequence of pushes and pops, the array still has
    [CONFIG_CACHE_SIZE] slots, both cursors index inside it, and the write
    cursor is the read cursor advanced by count, modulo the array size. *)
Theorem run_ops_cursors_in_bounds (ops : list cache_op) (cache0 : mem_cache_t) :
  length (data cache0) = Z.to_nat CONFIG_CACHE_SIZE ->
  let cache := (run_ops ops (mem_cache_init cache0)).2 in
  length (data cache) = Z.to_nat CONFIG_CACHE_SIZE /\
  0 <= write_idx cache < CONFIG_CACHE_SIZE /\
  0 <= read_idx cache < CONFIG_CACHE_SIZE /\
  write_idx cache = (read_idx cache + count cache) mod CONFIG_CACHE_SIZE.
Proof using cache_size_ok.
  intros Hlen cache.
  destruct (run_ops_from_init ops cache0 Hlen) as [Hinv _].
  fold cache in Hinv. pose proof (write_idx_in_range _ Hinv) as Hw.
  destruct Hinv as (Hl & Hr & _ & Hwr). auto.
Qed.

(** X2. A push on a well-formed cache that is not full returns [true],
    appends the sample behind the queued ones, raises count by one and
    keeps the cache well formed. *)
Theorem mem_cache_push_appends (s : sensor_sample_t) (cache : mem_cache_t) :
  mem_cache_inv cache ->
  count cache < CONFIG_CACHE_SIZE ->
  let r := mem_cache_push s cache in
  r.1 = true /\
  mem_cache_inv r.2 /\
  contents r.2 = contents cache ++ [s] /\
  count r.2 = count cache + 1.
Proof using cache_size_ok.
  intros Hinv Hroom r.
  assert (Hnf : count cache <> CONFIG_CACHE_SIZE) by lia.
  pose proof (push_ok_inv s _ Hinv Hnf) as Hinv'.
  pose proof (push_ok_contents s _ Hinv Hnf) as Hcont.
  subst r. rewrite (push_ok_result s _ Hinv Hnf) in *.
  cbn [fst snd count] in *. auto.
Qed.

(** X3. A pop on a well-formed cache that is not empty returns [true],
    writes the oldest queued sample to [out], leaves the younger ones
    queued in order, lowers count by one, and writes to no slot. *)
Theorem mem_cache_pop_oldest (out : sensor_sample_t) (cache : mem_cache_t) :
  mem_cache_inv cache ->
  0 < count cache ->
  let r := mem_cache_pop out cache in
  r.1.1 = true /\
  mem_cache_inv r.2 /\
  contents cache = r.1.2 :: contents r.2 /\
  count r.2 = count cache - 1 /\
  data r.2 = data cache.
Proof using cache_size_ok.
  intros Hinv Hpos r.
  assert (Hne : count cache <> 0) by lia.
  pose proof (pop_ok_inv out _ Hinv Hne) as Hinv'.
  pose proof (pop_ok_contents out _ Hinv Hne) as Hcont.
  destruct (pop_ok_result out _ Hinv Hne) as (s & _ & Hres).
  subst r. rewrite Hres in *. cbn [fst snd count data] in *. auto.
Qed.

(** X4. FIFO order also holds in runs with rejected pushes: from the
    initial state, the samples returned by the successful pops followed by
    the samples still queued are exactly the accepted samples, in the
    order they were pushed; a rejected sample never comes out. *)
Theorem run_ops_fifo_accepted (ops : list cache_op) (cache0 : mem_cache_t) :
  length (data cache0) = Z.to_nat CONFIG_CACHE_SIZE ->
  let r := run_ops ops (mem_cache_init cache0) in
  accepted r.1 = popped r.1 ++ contents r.2 /\
  popped r.1 = take (length (popped r.1)) (accepted r.1).
Proof using cache_size_ok.
  intros Hlen r.
  destruct (run_ops_from_init ops cache0 Hlen) as [_ Hq]. fold r in Hq.
  split; [exact Hq|]. rewrite Hq. symmetry. apply take_app_length.
Qed.

(** X5. On a well-formed cache [mem_cache_count] returns the number of
    queued samples and leaves the cache as it is. *)
Theorem mem_cache_count_queue_length (cache : mem_cache_t) :
  mem_cache_inv cache ->
  mem_cache_count cache = (Z.of_nat (length (contents cache)), cache).
Proof using cache_size_ok.
  intros Hinv. unfold mem_cache_count. f_equal.
  rewrite (contents_length _ Hinv).
  destruct Hinv as (_ & _ & Hc & _). lia.
Qed.

Lemma run_ops_cursors (ops : list cache_op) :
  forall cache : mem_cache_t,
    mem_cache_inv cache ->
    write_idx (run_ops ops cache).2 =
      (write_idx cache + Z.of_nat (length (accepted (run_ops ops cache).1)))
        mod CONFIG_CACHE_SIZE /\
    read_idx (run_ops ops cache).2 =
      (read_idx cache + Z.of_nat (length (popped (run_ops ops cache).1)))
        mod CONFIG_CACHE_SIZE.
Proof using cache_size_ok.
  induction ops as [|[s|out] ops IH]; intros cache Hinv.
  - pose proof (write_idx_in_range _ Hinv) as Hw.
    destruct Hinv as (_ & Hr & _ & _). cbn.
    rewrite !Z.add_0_r, !Z.mod_small by lia. auto.
  - cbn [run_ops].
    destruct (Z.eq_dec (count cache) CONFIG_CACHE_SIZE) as [Hfull|Hnf].
    + rewrite (push_full_result s cache Hfull).
      specialize (IH cache Hinv).
      destruct (run_ops ops cache) as [tr c']. cbn in *. exact IH.
    + pose proof (push_ok_inv s _ Hinv Hnf) as Hinv'.
      rewrite (push_ok_result s _ Hinv Hnf) in *. cbn [snd] in *.
      match goal with |- context [run_ops ops ?c] =>
        specialize (IH c Hinv'); destruct (run_ops ops c) as [tr c'] end.
      cbn [fst snd write_idx read_idx accepted popped flat_map app length] in *.
      destruct IH as [IHw IHr]. split; [|exact IHr].
      rewrite IHw, cursor_shift. f_equal. lia.
  - cbn [run_ops].
    destruct (Z.eq_dec (count cache) 0) as [Hempty|Hne].
    + rewrite (pop_empty_result out cache Hempty).
      specialize (IH cache Hinv).
      destruct (run_ops ops cache) as [tr c']. cbn in *. exact IH.
    + pose proof (pop_ok_inv out _ Hinv Hne) as Hinv'.
      destruct (pop_ok_result out _ Hinv Hne) as (s' & _ & Hres).
      rewrite Hres in *. cbn [snd] in *.
      match goal with |- context [run_ops ops ?c] =>
        specialize (IH c Hinv'); destruct (run_ops ops c) as [tr c'] end.
      cbn [fst snd write_idx read_idx accepted popped flat_map app length] in *.
      destruct IH as [IHw IHr]. split; [exact IHw|].
      rewrite IHr, cursor_shift. f_equal. lia.
Qed.

(** X6. From the initial state, after any run the write cursor is the
    number of accepted pushes modulo [CONFIG_CACHE_SIZE] and the read
    cursor is the number of successful pops modulo [CONFIG_CACHE_SIZE]. *)
Theorem run_ops_cursor_positions (ops : list cache_op) (cache0 : mem_cache_t) :
  length (data cache0) = Z.to_nat CONFIG_CACHE_SIZE ->
  let r := run_ops ops (mem_cache_init cache0) in
  write_idx r.2 = Z.of_nat (length (accepted r.1)) mod CONFIG_CACHE_SIZE /\
  read_idx r.2 = Z.of_nat (length (popped r.1)) mod CONFIG_CACHE_SIZE.
Proof using cache_size_ok.
  intros Hlen r.
  exact (run_ops_cursors ops _ (mem_cache_init_inv _ Hlen)).
Qed.

Lemma run_push_all (l : list sensor_sample_t) :
  forall cache : mem_cache_t,
    mem_cache_inv cache ->
    accepted (run_ops (map OpPush l) cache).1 =
      take (Z.to_nat (CONFIG_CACHE_SIZE - count cache)) l /\
    popped (run_ops (map OpPush l) cache).1 = [].
Proof using cache_size_ok.
  induction l as [|s l IH]; intros cache Hinv.
  - cbn. rewrite take_nil. auto.
  - cbn [map run_ops].
    destruct (Z.eq_dec (count cache) CONFIG_CACHE_SIZE) as [Hfull|Hnf].
    + rewrite (push_full_result s cache Hfull).
      specialize (IH cache Hinv).
      destruct (run_ops (map OpPush l) cache) as [tr c'].
      cbn in *. rewrite Hfull, Z.sub_diag in *. cbn in *.
      rewrite take_0 in IH. exact IH.
    + pose proof (push_ok_inv s _ Hinv Hnf) as Hinv'.
      rewrite (push_ok_result s _ Hinv Hnf) in *. cbn [snd] in *.
      match goal with |- context [run_ops _ ?c] =>
        specialize (IH c Hinv'); destruct (run_ops (map OpPush l) c) as [tr c'] end.
      cbn [fst snd count accepted popped flat_map app] in *.
      destruct IH as [IHa IHp]. split; [|exact IHp].
      destruct Hinv as (_ & _ & Hc & _).
      replace (Z.to_nat (CONFIG_CACHE_SIZE - count cache))
        with (S (Z.to_nat (CONFIG_CACHE_SIZE - (count cache + 1)))) by lia.
      cbn [take]. f_equal. exact IHa.
Qed.

(** X7. Capacity: when a list of samples is pushed into the initial cache
    with no pop in between, exactly the first [CONFIG_CACHE_SIZE] of them
    are accepted and queued; every later one is rejected. *)
Theorem push_all_keeps_first_capacity
    (l : list sensor_sample_t) (cache0 : mem_cache_t) :
  length (data cache0) = Z.to_nat CONFIG_CACHE_SIZE ->
  let r := run_ops (map OpPush l) (mem_cache_init cache0) in
  accepted r.1 = take (Z.to_nat CONFIG_CACHE_SIZE) l /\
  contents r.2 = take (Z.to_nat CONFIG_CACHE_SIZE) l /\
  count r.2 = Z.min CONFIG_CACHE_SIZE (Z.of_nat (length l)).
Proof using cache_size_ok.
  intros Hlen r.
  pose proof (mem_cache_init_inv _ Hlen) as Hinv0.
  destruct (run_push_all l _ Hinv0) as [Ha Hp].
  destruct (run_ops_from_init (map OpPush l) cache0 Hlen) as [Hinv Hq].
  fold r in Ha, Hp, Hinv, Hq.
  cbn [mem_cache_init count] in Ha. rewrite Z.sub_0_r in Ha.
  rewrite Hp in Hq. cbn [app] in Hq.
  assert (Hcont : contents r.2 = take (Z.to_nat CONFIG_CACHE_SIZE) l)
    by (rewrite <- Hq; exact Ha).
  split; [exact Ha|]. split; [exact Hcont|].
  pose proof (contents_length _ Hinv) as Hcl.
  rewrite Hcont, length_take in Hcl.
  destruct Hinv as (_ & _ & Hc & _). lia.
Qed.

Lemma run_pop_all (outs : list sensor_sample_t) :
  forall cache : mem_cache_t,
    mem_cache_inv cache ->
    popped (run_ops (map OpPop outs) cache).1 =
      take (length outs) (contents cache) /\
    accepted (run_ops (map OpPop outs) cache).1 = [].
Proof using cache_size_ok.
  induction outs as [|out outs IH]; intros cache Hinv.
  - cbn. rewrite take_0. auto.
  - cbn [map run_ops].
    destruct (Z.eq_dec (count cache) 0) as [Hempty|Hne].
    + rewrite (pop_empty_result out cache Hempty).
      specialize (IH cache Hinv).
      assert (Hc0 : contents cache = [])
        by (unfold contents; rewrite Hempty; reflexivity).
      rewrite Hc0, take_nil in *.
      destruct (run_ops (map OpPop outs) cache) as [tr c'].
      exact IH.
    + pose proof (pop_ok_inv out _ Hinv Hne) as Hinv'.
      pose proof (pop_ok_contents out _ Hinv Hne) as Hcont.
      destruct (pop_ok_result out _ Hinv Hne) as (s' & _ & Hres).
      rewrite Hres in *. cbn [fst snd] in *.
      match goal with |- context [run_ops _ ?c] =>
        specialize (IH c Hinv'); destruct (run_ops (map OpPop outs) c) as [tr c'] end.
      cbn [fst snd accepted popped flat_map app length] in *.
      destruct IH as [IHp IHa]. split; [|exact IHa].
      rewrite Hcont. cbn [take]. f_equal. exact IHp.
Qed.

(** X8. Draining: on a well-formed cache, at least [count] pops in a row
    return exactly the queued samples, oldest first, and leave the cache
    empty; the pops beyond that return nothing. *)
Theorem pop_all_drains_in_order
    (outs : list sensor_sample_t) (cache : mem_cache_t) :
  mem_cache_inv cache ->
  count cache <= Z.of_nat (length outs) ->
  let r := run_ops (map OpPop outs) cache in
  popped r.1 = contents cache /\ count r.2 = 0.
Proof using cache_size_ok.
  intros Hinv Hn r.
  destruct (run_pop_all outs _ Hinv) as [Hp Ha].
  destruct (run_ops_queue (map OpPop outs) _ Hinv) as [Hinv' Hq].
  fold r in Hp, Ha, Hinv', Hq.
  pose proof (contents_length _ Hinv) as Hcl.
  rewrite take_ge in Hp by lia.
  split; [exact Hp|].
  rewrite Ha, Hp, app_nil_r in Hq.
  assert (Hnil : contents r.2 = []).
  { apply (app_inv_head (contents cache)). rewrite app_nil_r. symmetry. exact Hq. }
  pose proof (contents_length _ Hinv') as Hcl'. rewrite Hnil in Hcl'.
  destruct Hinv' as (_ & _ & Hc & _). cbn in Hcl'. lia.
Qed.

(* =================================================================== *)
(** * The transmit timer                                                *)
(* =================================================================== *)

Lemma tx_gate_open (app : app_data_t) :
  current_conn app <> 0 -> notify_enabled app = true ->
  (current_conn app =? 0) || negb (notify_enabled app) = false.
Proof.
  intros Hconn Hon. rewrite Hon.
  destruct (Z.eqb_spec (current_conn app) 0); [contradiction | reflexivity].
Qed.

(** X9. With a connection and notifications enabled, an activation on a
    well-formed, non-empty cache hands the oldest queued sample to
    [bt_gatt_notify]; when that returns 0 the sample is gone from the
    queue, the younger samples stay in order and nothing is logged. *)
Theorem tx_timer_handler_delivers_oldest
    (env : tx_env) (app : app_data_t) (cache : mem_cache_t)
    (s : sensor_sample_t) (rest : list sensor_sample_t) :
  current_conn app <> 0 ->
  notify_enabled app = true ->
  mem_cache_inv cache ->
  contents cache = s :: rest ->
  bt_gatt_notify env (current_conn app) s = 0 ->
  exists cache1,
    tx_timer_handler env app cache =
      (during_notify env cache1, [],
       [CallPop true; CallNotify (current_conn app) s 0]) /\
    mem_cache_inv cache1 /\
    contents cache1 = rest.
Proof using cache_size_ok.
  intros Hconn Hon Hinv Hcont Hsent.
  destruct (queue_pop (stack_sample env) s cache rest (conj Hinv Hcont))
    as (cache1 & Hpop & Hinv1 & Hrest).
  exists cache1. split; [|split; assumption].
  unfold tx_timer_handler.
  rewrite (tx_gate_open _ Hconn Hon), Hpop. cbn [negb].
  rewrite Hsent. reflexivity.
Qed.

(** X10. When the delivery fails and nothing else touches the cache during
    the activation, the requeue always succeeds: the oldest sample moves
    to the back of the queue, count is unchanged, and the one line logged
    is the notify-failed warning. *)
Theorem tx_timer_handler_failed_delivery_rotates
    (env : tx_env) (app : app_data_t) (cache : mem_cache_t)
    (s : sensor_sample_t) (rest : list sensor_sample_t) :
  current_conn app <> 0 ->
  notify_enabled app = true ->
  mem_cache_inv cache ->
  contents cache = s :: rest ->
  (forall c, during_notify env c = c) ->
  bt_gatt_notify env (current_conn app) s <> 0 ->
  let err := bt_gatt_notify env (current_conn app) s in
  let r := tx_timer_handler env app cache in
  mem_cache_inv r.1.1 /\
  contents r.1.1 = rest ++ [s] /\
  count r.1.1 = count cache /\
  r.1.2 = [LOG_WRN_notify_failed err] /\
  r.2 = [CallPop true; CallNotify (current_conn app) s err; CallPush s true].
Proof using cache_size_ok.
  intros Hconn Hon Hinv Hcont Hquiet Hfail err r.
  pose proof (queue_is_count _ _ (conj Hinv Hcont)) as Hcount.
  destruct (queue_pop (stack_sample env) s cache rest (conj Hinv Hcont))
    as (cache1 & Hpop & Hq1).
  pose proof (queue_is_count _ _ Hq1) as Hcount1.
  assert (Hroom : Z.of_nat (length rest) < CONFIG_CACHE_SIZE).
  { destruct Hinv as (_ & _ & Hc & _). cbn [length] in Hcount. lia. }
  destruct (queue_push s cache1 rest Hq1 Hroom) as (cache2 & Hpush & Hq2).
  pose proof (queue_is_count _ _ Hq2) as Hcount2.
  subst r. unfold tx_timer_handler.
  rewrite (tx_gate_open _ Hconn Hon), Hpop. cbn [negb].
  fold err. destruct (Z.eqb_spec err 0) as [Hz|_]; [contradiction|].
  rewrite Hquiet, Hpush. cbn [fst snd].
  destruct Hq2 as [Hinv2 Hcont2].
  split; [exact Hinv2|]. split; [exact Hcont2|].
  split; [|split; reflexivity].
  rewrite Hcount2, Hcount, length_app. cbn [length]. lia.
Qed.

(** X11. With the gate open and an empty cache, an activation calls
    [mem_cache_pop] once, never calls [bt_gatt_notify] (the uninitialised
    local is never sent), logs nothing and leaves the cache as it is. *)
Theorem tx_timer_handler_empty_cache
    (env : tx_env) (app : app_data_t) (cache : mem_cache_t) :
  current_conn app <> 0 ->
  notify_enabled app = true ->
  count cache = 0 ->
  tx_timer_handler env app cache = (cache, [], [CallPop false]).
Proof.
  intros Hconn Hon Hempty. unfold tx_timer_handler.
  rewrite (tx_gate_open _ Hconn Hon), (pop_empty_result _ _ Hempty).
  reflexivity.
Qed.

(** X12. Whatever the requeue returns, an activation logs at most the
    notify-failed warning: when it made a requeue call, accepted or
    rejected, the log is that one line, and the cache-full warning of the
    sampling timer is never logged. *)
Theorem tx_timer_handler_log_ignores_requeue
    (env : tx_env) (app : app_data_t) (cache : mem_cache_t) :
  let r := tx_timer_handler env app cache in
  ~ In LOG_WRN_cache_full r.1.2 /\
  (forall s ok, In (CallPush s ok) r.2 ->
     r.1.2 = [LOG_WRN_notify_failed (bt_gatt_notify env (current_conn app) s)]).
Proof using Type.
  clear cache_size_ok bt_conn_ref rand.
  intros r. subst r. unfold tx_timer_handler.
  destruct ((current_conn app =? 0) || negb (notify_enabled app)).
  { cbn. split; [tauto | intros ? ? []]. }
  destruct (mem_cache_pop (stack_sample env) cache) as [[ok sample] cache1].
  destruct ok; cbn [negb].
  2:{ cbn. split; [tauto | intros ? ? [H|[]]; discriminate H]. }
  destruct (bt_gatt_notify env (current_conn app) sample =? 0).
  { cbn. split; [tauto | intros ? ? [H|[H|[]]]; discriminate H]. }
  destruct (mem_cache_push sample (during_notify env cache1)) as [requeued cache3].
  cbn. split.
  - intros [H|[]]. discriminate H.
  - intros s ok [H|[H|[H|[]]]]; try discriminate H.
    injection H as <- _. reflexivity.
Qed.

(* =================================================================== *)
(** * The sampling timer                                                *)
(* =================================================================== *)

Lemma gen_imu_shape (n : nat) :
  forall g : rand_state,
    length (gen_imu n g).1 = n /\
    Forall (fun x => 0 <= x < 2 ^ 32) (gen_imu n g).1.
Proof.
  induction n as [|n IH]; intros g; cbn [gen_imu].
  - cbn. auto.
  - destruct (rand g) as [r g1]. specialize (IH g1).
    destruct (gen_imu n g1) as [rest g2]. cbn [fst length] in *.
    destruct IH as [IHl IHr]. split; [lia|].
    constructor; [|exact IHr].
    unfold uint32_t_wrap. apply Z.mod_pos_bound. lia.
Qed.

Lemma gen_temp_shape (n : nat) :
  forall g : rand_state,
    length (gen_temp n g).1 = n /\
    Forall (fun t => exists raw, 0 <= raw < 2 ^ 16 /\ t = uint16_to_double raw)
           (gen_temp n g).1.
Proof.
  induction n as [|n IH]; intros g; cbn [gen_temp].
  - cbn. auto.
  - destruct (rand g) as [r g1]. specialize (IH g1).
    destruct (gen_temp n g1) as [rest g2]. cbn [fst length] in *.
    destruct IH as [IHl IHr]. split; [lia|].
    constructor; [|exact IHr].
    exists (uint16_t_wrap r). split; [|reflexivity].
    unfold uint16_t_wrap. apply Z.mod_pos_bound. lia.
Qed.

(** X13. Whatever [rand] returns, the sample the sampling timer builds
    has [IMU_SAMPLE_LEN] IMU values, each a 32-bit unsigned value, and
    [TEMP_SAMPLE_LEN] temperatures, each the decoding of a 16-bit
    pattern. *)
Theorem gen_sample_shape (g : rand_state) :
  let sample := (gen_sample g).1 in
  length (imu sample) = IMU_SAMPLE_LEN /\
  Forall (fun x => 0 <= x < 2 ^ 32) (imu sample) /\
  length (temp sample) = TEMP_SAMPLE_LEN /\
  Forall (fun t => exists raw, 0 <= raw < 2 ^ 16 /\ t = uint16_to_double raw)
         (temp sample).
Proof.
  intros sample. subst sample. unfold gen_sample.
  pose proof (gen_imu_shape IMU_SAMPLE_LEN g) as [Hil Hir].
  destruct (gen_imu IMU_SAMPLE_LEN g) as [imu_vals g1].
  pose proof (gen_temp_shape TEMP_SAMPLE_LEN g1) as [Htl Htr].
  destruct (gen_temp TEMP_SAMPLE_LEN g1) as [temp_vals g2].
  cbn [fst imu temp] in *. auto.
Qed.

(** X14. On a well-formed cache that is not full, an activation of the
    sampling timer queues the generated sample behind the queued ones and
    logs nothing. *)
Theorem sample_timer_handler_enqueues (g : rand_state) (cache : mem_cache_t) :
  mem_cache_inv cache ->
  count cache < CONFIG_CACHE_SIZE ->
  let r := sample_timer_handler g cache in
  r.1.1 = (gen_sample g).2 /\
  mem_cache_inv r.1.2 /\
  contents r.1.2 = contents cache ++ [(gen_sample g).1] /\
  r.2 = [].
Proof using cache_size_ok.
  intros Hinv Hroom r. subst r. unfold sample_timer_handler.
  destruct (gen_sample g) as [sample g'].
  assert (Hlen : Z.of_nat (length (contents cache)) < CONFIG_CACHE_SIZE).
  { rewrite (contents_length _ Hinv). destruct Hinv as (_ & _ & Hc & _). lia. }
  destruct (queue_push sample cache _ (conj Hinv eq_refl) Hlen)
    as (cache' & Hpush & Hinv' & Hcont).
  rewrite Hpush. cbn. auto.
Qed.

(** X15. On a full cache, an activation of the sampling timer still draws
    its random numbers, then drops the generated sample: the cache is
    unchanged and the cache-full warning is logged. *)
Theorem sample_timer_handler_drops_when_full
    (g : rand_state) (cache : mem_cache_t) :
  count cache = CONFIG_CACHE_SIZE ->
  sample_timer_handler g cache =
    ((gen_sample g).2, cache, [LOG_WRN_cache_full]).
Proof.
  intros Hfull. unfold sample_timer_handler.
  destruct (gen_sample g) as [sample g'].
  rewrite (push_full_result _ _ Hfull). reflexivity.
Qed.

(* =================================================================== *)
(** * Connection callbacks and the main loop                            *)
(* =================================================================== *)

(** X16. After [disconnected], and after any failed [connected] that
    follows it, a transmit activation is a no-op whatever the
    subscription flag says. *)
Theorem tx_gate_closed_after_disconnect
    (env : tx_env) (app : app_data_t) (cache : mem_cache_t)
    (reason conn err : Z) :
  err <> 0 ->
  let app1 := (disconnected reason app).1 in
  let app2 := (connected conn err app1).1 in
  tx_timer_handler env app1 cache = (cache, [], []) /\
  tx_timer_handler env app2 cache = (cache, [], []).
Proof.
  intros Herr app1 app2. subst app1 app2. unfold connected.
  destruct (Z.eqb_spec err 0) as [|_]; [contradiction|].
  cbn. auto.
Qed.

(** X17. [disconnected] does not clear the subscription flag: after a
    disconnect and a successful reconnect, with notifications enabled before
    the disconnect, the next activation on a non-empty cache sends the
    oldest sample on the new connection without a new subscription. *)
Theorem subscription_survives_reconnect
    (env : tx_env) (app : app_data_t) (cache : mem_cache_t) (reason conn : Z)
    (s : sensor_sample_t) (rest : list sensor_sample_t) :
  notify_enabled app = true ->
  bt_conn_ref conn <> 0 ->
  mem_cache_inv cache ->
  contents cache = s :: rest ->
  let app' := (connected conn 0 (disconnected reason app).1).1 in
  exists calls,
    (tx_timer_handler env app' cache).2 =
      CallPop true ::
      CallNotify (bt_conn_ref conn) s (bt_gatt_notify env (bt_conn_ref conn) s) ::
      calls.
Proof using cache_size_ok.
  intros Hon Href Hinv Hcont app'. subst app'.
  destruct (queue_pop (stack_sample env) s cache rest (conj Hinv Hcont))
    as (cache1 & Hpop & _).
  unfold tx_timer_handler. cbn [connected disconnected Z.eqb negb fst
    current_conn notify_enabled].
  rewrite Hon. destruct (Z.eqb_spec (bt_conn_ref conn) 0) as [|_]; [contradiction|].
  cbn [orb negb]. rewrite Hpop. cbn [negb].
  destruct (bt_gatt_notify env (bt_conn_ref conn) s =? 0).
  - eexists. reflexivity.
  - destruct (mem_cache_push s (during_notify env cache1)). eexists. reflexivity.
Qed.

(** X18. After [ccc_cfg_changed value], a transmit activation makes no
    call exactly when there is no connection or [value] is not
    [BT_GATT_CCC_NOTIFY]; a value with further bits set besides the notify
    bit counts as disabled. *)
Theorem ccc_cfg_changed_gates_tx
    (env : tx_env) (app : app_data_t) (cache : mem_cache_t) (value : Z) :
  (tx_timer_handler env (ccc_cfg_changed value app).1 cache).2 = [] <->
  (current_conn app = 0 \/ value <> BT_GATT_CCC_NOTIFY).
Proof using Type.
  clear cache_size_ok bt_conn_ref rand.
  unfold tx_timer_handler, ccc_cfg_changed.
  cbn [fst current_conn notify_enabled].
  destruct (Z.eqb_spec (current_conn app) 0) as [Hc|Hc];
    destruct (Z.eqb_spec value BT_GATT_CCC_NOTIFY) as [Hv|Hv]; cbn [orb negb].
  - cbn. tauto.
  - cbn. tauto.
  - destruct (mem_cache_pop (stack_sample env) cache) as [[ok sample] cache1].
    destruct ok; cbn [negb].
    + destruct (bt_gatt_notify env (current_conn app) sample =? 0).
      * cbn. split; [discriminate | tauto].
      * destruct (mem_cache_push sample (during_notify env cache1)).
        cbn. split; [discriminate | tauto].
    + cbn. split; [discriminate | tauto].
  - cbn. tauto.
Qed.

Lemma clearbit_of_clear (a n : Z) :
  Z.testbit a n = false -> Z.clearbit a n = a.
Proof.
  intros Hbit. apply Z.bits_inj'. intros m _.
  rewrite Z.clearbit_eqb.
  destruct (Z.eqb_spec n m) as [->|_]; cbn [negb].
  - rewrite Hbit. reflexivity.
  - apply andb_true_r.
Qed.

Lemma main_loop_pass_connected (adv_err : Z) (app : app_data_t) :
  Z.testbit (state app) 1 = true ->
  main_loop_pass adv_err app =
    (Some {| current_conn := current_conn app;
             notify_enabled := notify_enabled app;
             state := Z.clearbit (state app) 1 |}, []).
Proof.
  intros Hc. unfold main_loop_pass, atomic_test_and_clear_bit, STATE_CONNECTED.
  rewrite Hc. reflexivity.
Qed.

Lemma main_loop_pass_disconnected (app : app_data_t) :
  Z.testbit (state app) 1 = false ->
  Z.testbit (state app) 0 = true ->
  main_loop_pass 0 app =
    (Some {| current_conn := current_conn app;
             notify_enabled := notify_enabled app;
             state := Z.clearbit (Z.clearbit (state app) 1) 0 |},
     [LOG_INF_starting_advertising]).
Proof.
  intros Hc Hd.
  unfold main_loop_pass, atomic_test_and_clear_bit, STATE_CONNECTED,
    STATE_DISCONNECTED.
  rewrite Hc, (Z.clearbit_neq _ 1 0), Hd by lia. reflexivity.
Qed.

Lemma main_loop_pass_idle (adv_err : Z) (app : app_data_t) :
  Z.testbit (state app) 1 = false ->
  Z.testbit (state app) 0 = false ->
  main_loop_pass adv_err app = (Some app, []).
Proof.
  intros Hc Hd.
  unfold main_loop_pass, atomic_test_and_clear_bit, STATE_CONNECTED,
    STATE_DISCONNECTED.
  rewrite Hc, (clearbit_of_clear _ _ Hc), Hd, (clearbit_of_clear _ _ Hd).
  destruct app; reflexivity.
Qed.

(** X19. After [disconnected], two passes of the main loop in which
    [bt_le_adv_start] succeeds start advertising exactly once, whether or
    not a connection event was still pending, and leave both state bits
    clear. *)
Theorem main_loop_restarts_advertising (app : app_data_t) (reason : Z) :
  exists app',
    main_loop [0; 0] (disconnected reason app).1 =
      (Some app', [LOG_INF_starting_advertising]) /\
    Z.testbit (state app') STATE_CONNECTED = false /\
    Z.testbit (state app') STATE_DISCONNECTED = false /\
    current_conn app' = 0.
Proof.
  unfold disconnected, atomic_set_bit, STATE_CONNECTED, STATE_DISCONNECTED.
  cbn [fst main_loop].
  set (st := Z.setbit (state app) 0).
  assert (Hd : Z.testbit st 0 = true) by (apply Z.setbit_eq; lia).
  destruct (Z.testbit st 1) eqn:Hc.
  - rewrite main_loop_pass_connected by exact Hc.
    rewrite main_loop_pass_disconnected; cbn [state].
    + eexists. split; [reflexivity|]. cbn [state current_conn].
      rewrite Z.clearbit_eq, (Z.clearbit_neq _ 0 1), Z.clearbit_eq by lia.
      auto.
    + apply Z.clearbit_eq.
    + rewrite (Z.clearbit_neq _ 1 0) by lia. exact Hd.
  - rewrite main_loop_pass_disconnected by assumption.
    rewrite main_loop_pass_idle; cbn [state].
    + eexists. split; [reflexivity|]. cbn [state current_conn].
      rewrite Z.clearbit_eq, (Z.clearbit_neq _ 0 1), Z.clearbit_eq by lia.
      auto.
    + rewrite (Z.clearbit_neq _ 0 1), Z.clearbit_eq by lia. reflexivity.
    + apply Z.clearbit_eq.
Qed.

(** X20. With neither state bit set, the main loop idles: any number of
    passes logs nothing, never calls [bt_le_adv_start] and leaves
    [app_data] as it is. *)
Theorem main_loop_idle_without_events (adv_errs : list Z) (app : app_data_t) :
  Z.testbit (state app) STATE_CONNECTED = false ->
  Z.testbit (state app) STATE_DISCONNECTED = false ->
  main_loop adv_errs app = (Some app, []).
Proof.
  intros Hc Hd. induction adv_errs as [|e errs IH]; [reflexivity|].
  cbn [main_loop]. rewrite (main_loop_pass_idle e app Hc Hd), IH.
  reflexivity.
Qed.

(** X21. Start-up: when [bt_enable] fails, [main] returns before its loop
    and never advertises; when it succeeds on an [app_data] with no
    connection event pending, the first pass of the loop starts
    advertising. *)
Theorem main_start_first_pass (app : app_data_t) (enable_err adv_err : Z) :
  Z.testbit (state app) STATE_CONNECTED = false ->
  (enable_err <> 0 ->
     main_start enable_err app =
       (None, [LOG_INF_starting; LOG_INF_service_initialized;
               LOG_ERR_bt_enable_failed enable_err])) /\
  (enable_err = 0 ->
     exists app1,
       main_start enable_err app =
         (Some app1, [LOG_INF_starting; LOG_INF_service_initialized]) /\
       hd_error (main_loop_pass adv_err app1).2 =
         Some LOG_INF_starting_advertising).
Proof.
  intros Hc. split; intros He; unfold main_start.
  - destruct (Z.eqb_spec enable_err 0) as [|_]; [contradiction | reflexivity].
  - subst enable_err. cbn [Z.eqb negb]. eexists. split; [reflexivity|].
    unfold main_loop_pass, atomic_test_and_clear_bit, atomic_set_bit,
      STATE_CONNECTED, STATE_DISCONNECTED in *.
    cbn [state].
    rewrite (Z.setbit_neq _ 0 1), Hc, (Z.clearbit_neq _ 1 0), Z.setbit_eq by lia.
    destruct (negb (adv_err =? 0)); reflexivity.
Qed.

End Firmware.

(* ===================================================================== *)
(** * The half-precision decoder                                          *)
(* ===================================================================== *)

Lemma forall_range_sound (P : Z -> bool) (n : nat) :
  forall base : Z,
    forall_range n base P = true ->
    forall u : Z, base <= u < base + 2 ^ Z.of_nat n -> P u = true.
Proof.
  induction n as [|n IH]; intros base Hall u Hu.
  - cbn in Hall, Hu. replace u with base by lia. exact Hall.
  - cbn [forall_range] in Hall. apply andb_true_iff in Hall as [Hlo Hhi].
    rewrite Nat2Z.inj_succ, Z.pow_succ_r in Hu by lia.
    destruct (Z.lt_ge_cases u (base + 2 ^ Z.of_nat n)).
    + apply (IH base Hlo). lia.
    + apply (IH _ Hhi). lia.
Qed.

Lemma is_doubleb_sound (f : float) (neg : bool) (q : Q) :
  is_doubleb f neg q = true -> is_double f neg q.
Proof.
  unfold is_doubleb, is_double.
  destruct (Prim2SF f) as [s| | |s m e]; try discriminate;
    intros H; apply andb_true_iff in H as [Hs Hq];
    (split; [apply Bool.eqb_prop, Hs | apply Qeq_bool_iff, Hq]).
Qed.

Lemma decode_finite_all : forall_range 16 0 decode_finite_ok = true.
Proof. vm_compute. reflexivity. Qed.

Lemma decode_finite (u16 : Z) :
  0 <= u16 < 65536 ->
  f16_exp u16 <> 31 ->
  is_double (uint16_to_double u16) (f16_sign u16) (f16_magnitude u16).
Proof.
  intros Hu He.
  pose proof (forall_range_sound _ 16 0 decode_finite_all u16 Hu) as Hok.
  unfold decode_finite_ok in Hok.
  destruct (Z.eqb_spec (f16_exp u16) 31); [contradiction|].
  apply is_doubleb_sound, Hok.
Qed.

Lemma sign_field_testbit (u16 : Z) :
  (Z.land (Z.shiftr u16 15) 1 =? 0) = negb (f16_sign u16).
Proof.
  unfold f16_sign.
  change 1 with (Z.ones 1). rewrite Z.land_ones by lia.
  change (2 ^ 1) with 2. rewrite <- Z.bit0_mod, Z.shiftr_spec by lia.
  rewrite Z.add_0_l. destruct (Z.testbit u16 15); reflexivity.
Qed.

(** C6. For every 16-bit input the decoder returns: with exponent field 0,
    mantissa x 2^-24 with the sign bit applied; with exponent field 31, NaN
    when the mantissa is not zero and the infinity of the sign bit when it
    is; otherwise (1 + mantissa/1024) x 2^(exponent - 15) with the sign bit
    applied.  In particular 0x0000 gives 0.0, 0x8000 gives -0.0, 0x3C00
    gives 1.0, 0x7C00 and 0xFC00 give plus and minus infinity, 0x7E00 gives
    NaN, 0x0001 gives 2^-24 and 0x7BFF gives 65504.0.  Every pattern has a
    result: the decoder has no error path. *)
Theorem uint16_to_double_decodes :
  (forall u16 : Z,
     0 <= u16 < 65536 ->
     (f16_exp u16 = 0 ->
        is_double (uint16_to_double u16) (f16_sign u16)
                  (inject_Z (f16_mant u16) * 2 ^ (-24))%Q) /\
     (f16_exp u16 = 31 -> f16_mant u16 <> 0 -> uint16_to_double u16 = nan) /\
     (f16_exp u16 = 31 -> f16_mant u16 = 0 ->
        uint16_to_double u16 =
          if f16_sign u16 then neg_infinity else infinity) /\
     (f16_exp u16 <> 0 -> f16_exp u16 <> 31 ->
        is_double (uint16_to_double u16) (f16_sign u16)
                  ((1 + inject_Z (f16_mant u16) / 1024)
                   * 2 ^ (f16_exp u16 - 15))%Q)) /\
  uint16_to_double 0x0000 = 0%float /\
  uint16_to_double 0x8000 = (-0)%float /\
  uint16_to_double 0x3C00 = 1%float /\
  uint16_to_double 0x7C00 = infinity /\
  uint16_to_double 0xFC00 = neg_infinity /\
  uint16_to_double 0x7E00 = nan /\
  uint16_to_double 0x0001 = 0x1p-24%float /\
  uint16_to_double 0x7BFF = 65504%float.
Proof.
  split; [|repeat split; vm_compute; reflexivity].
  intros u16 Hu. repeat split.
  - intros He. pose proof (decode_finite u16 Hu) as H.
    unfold f16_magnitude in H. rewrite He in H. apply H. discriminate.
  - intros He Hm. unfold uint16_to_double.
    fold (f16_exp u16) (f16_mant u16). rewrite He. cbn [Z.eqb Pos.eqb].
    destruct (Z.eqb_spec (f16_mant u16) 0); [contradiction | reflexivity].
  - intros He Hm. unfold uint16_to_double.
    fold (f16_exp u16) (f16_mant u16). rewrite He, Hm, sign_field_testbit.
    cbn [Z.eqb Pos.eqb]. destruct (f16_sign u16); reflexivity.
  - intros He0 He31. pose proof (decode_finite u16 Hu He31) as H.
    unfold f16_magnitude in H.
    destruct (Z.eqb_spec (f16_exp u16) 0); [contradiction | exact H].
Qed.

Lemma f16_fields_high_bit (u16 : Z) :
  0 <= u16 < 32768 ->
  Z.land (Z.shiftr u16 15) 1 = 0 /\
  Z.land (Z.shiftr (u16 + 32768) 15) 1 = 1 /\
  Z.land (Z.shiftr (u16 + 32768) 10) 31 = Z.land (Z.shiftr u16 10) 31 /\
  Z.land (u16 + 32768) 1023 = Z.land u16 1023.
Proof.
  intros Hu.
  change 1 with (Z.ones 1). change 31 with (Z.ones 5).
  change 1023 with (Z.ones 10).
  rewrite !Z.land_ones, !Z.shiftr_div_pow2 by lia.
  change (2 ^ 1) with 2. change (2 ^ 5) with 32.
  change (2 ^ 10) with 1024. change (2 ^ 15) with 32768.
  assert (E1 : (u16 + 32768) / 32768 = 1).
  { replace (u16 + 32768) with (u16 + 1 * 32768) by lia.
    rewrite Z.div_add, Z.div_small by lia. reflexivity. }
  assert (E2 : (u16 + 32768) / 1024 = u16 / 1024 + 1 * 32).
  { replace (u16 + 32768) with (u16 + 32 * 1024) by lia.
    rewrite Z.div_add by lia. reflexivity. }
  assert (E3 : (u16 + 32768) mod 1024 = u16 mod 1024).
  { replace (u16 + 32768) with (u16 + 32 * 1024) by lia.
    apply Z_mod_plus_full. }
  rewrite E1, E2, E3, Z_mod_plus_full, (Z.div_small u16 32768) by lia.
  repeat split; reflexivity.
Qed.

(** X22. Setting the sign bit negates the result: for every pattern [u16]
    with bit 15 clear, the pattern [u16 + 0x8000] decodes to the negation of
    what [u16] decodes to (zero to minus zero, infinity to minus infinity,
    NaN to NaN). *)
Theorem uint16_to_double_sign_flip (u16 : Z) :
  0 <= u16 < 32768 ->
  uint16_to_double (u16 + 32768) = PrimFloat.opp (uint16_to_double u16).
Proof.
  intros Hu.
  destruct (f16_fields_high_bit u16 Hu) as (Hs & Hs' & He & Hm).
  unfold uint16_to_double. rewrite Hs, Hs', He, Hm. cbn [Z.eqb].
  destruct (Z.land (Z.shiftr u16 10) 31 =? 0); [reflexivity|].
  destruct (Z.land (Z.shiftr u16 10) 31 =? 31); [|reflexivity].
  destruct (Z.land u16 1023 =? 0); reflexivity.
Qed.

Lemma decode_bounded_all : forall_range 16 0 decode_bounded_ok = true.
Proof. vm_compute. reflexivity. Qed.

(** X23. Range of the decoder: every 16-bit pattern decodes to NaN, to an
    infinity, or to a finite double of magnitude at most 65504. *)
Theorem uint16_to_double_range (u16 : Z) :
  0 <= u16 < 65536 ->
  uint16_to_double u16 = nan \/
  uint16_to_double u16 = infinity \/
  uint16_to_double u16 = neg_infinity \/
  exists q : Q,
    is_double (uint16_to_double u16) (f16_sign u16) q /\ (q <= F16_MAX)%Q.
Proof.
  intros Hu.
  destruct (Z.eq_dec (f16_exp u16) 31) as [He|He].
  - unfold uint16_to_double. fold (f16_exp u16) (f16_mant u16).
    rewrite He. cbn [Z.eqb Pos.eqb].
    destruct (f16_mant u16 =? 0); [|auto].
    destruct (Z.land (Z.shiftr u16 15) 1 =? 0); auto.
  - right. right. right. exists (f16_magnitude u16).
    split; [exact (decode_finite u16 Hu He)|].
    pose proof (forall_range_sound _ 16 0 decode_bounded_all u16 Hu) as Hok.
    unfold decode_bounded_ok in Hok.
    destruct (Z.eqb_spec (f16_exp u16) 31); [contradiction|].
    apply Qle_bool_iff, Hok.
Qed.

Lemma decode_step_all : forall_range 15 0 decode_step_ok = true.
Proof. vm_compute. reflexivity. Qed.

Lemma f16_magnitude_step (u16 : Z) :
  0 <= u16 < 0x7BFF ->
  (f16_magnitude u16 < f16_magnitude (u16 + 1))%Q.
Proof.
  intros Hu.
  assert (Hr : 0 <= u16 < 0 + 2 ^ Z.of_nat 15) by (cbn; lia).
  pose proof (forall_range_sound _ 15 0 decode_step_all u16 Hr) as Hok.
  unfold decode_step_ok in Hok.
  destruct (Z.ltb_spec u16 0x7BFF); [|lia].
  apply Qnot_le_lt. intros Hle. apply Qle_bool_iff in Hle.
  rewrite Hle in Hok. discriminate Hok.
Qed.

Lemma f16_magnitude_increasing (n : nat) :
  forall u16 : Z,
    0 <= u16 ->
    u16 + Z.of_nat (S n) <= 0x7BFF ->
    (f16_magnitude u16 < f16_magnitude (u16 + Z.of_nat (S n)))%Q.
Proof.
  induction n as [|n IH]; intros u16 Hlo Hhi.
  - apply f16_magnitude_step. lia.
  - apply Qlt_trans with (f16_magnitude (u16 + Z.of_nat (S n))).
    + apply IH; lia.
    + replace (u16 + Z.of_nat (S (S n))) with (u16 + Z.of_nat (S n) + 1) by lia.
      apply f16_magnitude_step. lia.
Qed.

Lemma f16_positive_finite (u16 : Z) :
  0 <= u16 <= 0x7BFF -> f16_sign u16 = false /\ f16_exp u16 <> 31.
Proof.
  intros Hu. unfold f16_sign, f16_exp. split.
  - apply Z.testbit_false; [lia|].
    change (2 ^ 15) with 32768. Z.div_mod_to_equations. lia.
  - change 31 with (Z.ones 5) at 1.
    rewrite Z.land_ones, Z.shiftr_div_pow2 by lia.
    change (2 ^ 5) with 32. change (2 ^ 10) with 1024.
    Z.div_mod_to_equations. lia.
Qed.

(** X24. The decoder preserves order on the non-negative finite patterns:
    for [0 <= u < v <= 0x7BFF] both results are finite and non-negative, and
    the value decoded from [u] is strictly below the one decoded from [v]. *)
Theorem uint16_to_double_monotone (u v : Z) :
  0 <= u -> u < v -> v <= 0x7BFF ->
  exists qu qv : Q,
    is_double (uint16_to_double u) false qu /\
    is_double (uint16_to_double v) false qv /\
    (qu < qv)%Q.
Proof.
  intros Hu Huv Hv.
  destruct (f16_positive_finite u) as [Hsu Heu]; [lia|].
  destruct (f16_positive_finite v) as [Hsv Hev]; [lia|].
  exists (f16_magnitude u), (f16_magnitude v).
  split; [|split].
  - rewrite <- Hsu. apply decode_finite; [lia | exact Heu].
  - rewrite <- Hsv. apply decode_finite; [lia | exact Hev].
  - replace v with (u + Z.of_nat (S (Z.to_nat (v - u - 1)))) by lia.
    apply f16_magnitude_increasing; lia.
Qed.

(* ===================================================================== *)
(** * The claims at concrete inputs                                       *)
(* ===================================================================== *)

Ltac concrete_inv :=
  unfold mem_cache_inv; cbn; repeat split; try reflexivity; try lia.

Lemma mem_cache_push_full_unchanged_witness :
  let cache := {| data := [sample_of 1; sample_of 2];
                  write_idx := 0; read_idx := 0; count := 2 |} in
  mem_cache_push 2 SIZE_MAX_32 (sample_of 3) cache = (false, cache).
Proof. cbv zeta. apply mem_cache_push_full_unchanged. reflexivity. Defined.

Lemma mem_cache_pop_empty_unchanged_witness :
  let cache := {| data := [sample_of 1; sample_of 2];
                  write_idx := 1; read_idx := 1; count := 0 |} in
  (mem_cache_pop 2 SIZE_MAX_32 (sample_of 9) cache).1.1 = false /\
  (mem_cache_pop 2 SIZE_MAX_32 (sample_of 9) cache).2 = cache.
Proof. cbv zeta. apply mem_cache_pop_empty_unchanged. reflexivity. Defined.

Lemma mem_cache_pop_empty_out_untouched_witness :
  let cache := {| data := [sample_of 1; sample_of 2];
                  write_idx := 1; read_idx := 1; count := 0 |} in
  (mem_cache_pop 2 SIZE_MAX_32 (sample_of 9) cache).1 = (false, sample_of 9).
Proof. cbv zeta. apply mem_cache_pop_empty_out_untouched. reflexivity. Defined.

Lemma tx_timer_handler_gated_noop_witness :
  let env := {| stack_sample := sample_zero;
                bt_gatt_notify := fun _ _ => 0;
                during_notify := fun c => c |} in
  let app := {| current_conn := 5; notify_enabled := false; state := 2 |} in
  let cache := {| data := [sample_of 1; sample_of 2];
                  write_idx := 1; read_idx := 0; count := 1 |} in
  tx_timer_handler 2 SIZE_MAX_32 env app cache = (cache, [], []).
Proof. cbv zeta. apply tx_timer_handler_gated_noop. right. reflexivity. Defined.

(** With capacity 1, two pushes leave count at 1 although 2 samples were
    pushed and none popped: count does not equal the number of pushes minus
    the number of successful pops. *)
Lemma count_is_not_pushes_minus_pops :
  let r := run_ops 1 SIZE_MAX_32 [OpPush (sample_of 1); OpPush (sample_of 2)]
                   (mem_cache_init (cache_static 1)) in
  r.1 = [ResPush (sample_of 1) true; ResPush (sample_of 2) false] /\
  count r.2 = 1 /\
  count r.2 <> Z.of_nat (length (pushed r.1)) - Z.of_nat (length (popped r.1)).
Proof. vm_compute. repeat split; try reflexivity. discriminate. Qed.

Lemma run_ops_count_accepted_minus_popped_witness :
  let ops := [OpPush (sample_of 1); OpPush (sample_of 2); OpPush (sample_of 3);
              OpPop sample_zero; OpPush (sample_of 4)] in
  let r := run_ops 2 SIZE_MAX_32 (take 4 ops) (mem_cache_init (cache_static 2)) in
  0 <= count r.2 <= 2 /\
  count r.2 = Z.of_nat (length (accepted r.1)) - Z.of_nat (length (popped r.1)).
Proof.
  cbv zeta.
  refine (run_ops_count_accepted_minus_popped 2 SIZE_MAX_32 _ _ 4%nat
            (cache_static 2) _); [unfold SIZE_MAX_32; lia | reflexivity].
Defined.

(** One push and no pop: no push is rejected, nothing has been popped, and
    the pushed sample is still queued, so the popped sequence is not the
    pushed sequence. *)
Lemma popped_is_not_pushed_before_drain :
  let r := run_ops 2 SIZE_MAX_32 [OpPush (sample_of 1)]
                   (mem_cache_init (cache_static 2)) in
  no_rejection r.1 = true /\
  popped r.1 = [] /\
  pushed r.1 = [sample_of 1] /\
  count r.2 = 1 /\
  popped r.1 <> pushed r.1.
Proof. vm_compute. repeat split; try reflexivity. discriminate. Qed.

Lemma run_ops_fifo_witness :
  let ops := [OpPush (sample_of 1); OpPush (sample_of 2); OpPop sample_zero;
              OpPush (sample_of 3); OpPop sample_zero; OpPop sample_zero] in
  let r := run_ops 2 SIZE_MAX_32 ops (mem_cache_init (cache_static 2)) in
  popped r.1 = take (length (popped r.1)) (pushed r.1) /\
  pushed r.1 = popped r.1 ++ contents 2 r.2 /\
  (count r.2 = 0 -> popped r.1 = pushed r.1).
Proof.
  cbv zeta.
  refine (run_ops_fifo 2 SIZE_MAX_32 _ _ (cache_static 2) _ _);
    [unfold SIZE_MAX_32; lia | reflexivity | vm_compute; reflexivity].
Defined.



Lemma uint16_to_double_decodes_witness :
  is_double (uint16_to_double 0x3555) false
            ((1 + inject_Z 0x155 / 1024) * 2 ^ (13 - 15))%Q.
Proof.
  refine (proj2 (proj2 (proj2
            (proj1 uint16_to_double_decodes 0x3555 _))) _ _);
    [lia | discriminate | discriminate].
Defined.

(** C7. The requeue of [tx_timer_handler] can be rejected and is then lost
    without a trace.  Capacity 1, one sample queued, connection up and
    notifications on; [bt_gatt_notify] fails and the sampling timer pushes a
    sample while it runs.  The requeue returns [false], the popped sample is
    in the cache no more, and the log is the one notify-failed line, the
    same as in the activation in which the requeue is accepted. *)
Theorem tx_timer_handler_requeue_drop_unreported :
  let smp := sample_of 1 in
  let fresh := sample_of 2 in
  let app := {| current_conn := 1; notify_enabled := true; state := 0 |} in
  let cache :=
    (mem_cache_push 1 SIZE_MAX_32 smp (mem_cache_init (cache_static 1))).2 in
  let quiet := {| stack_sample := sample_zero;
                  bt_gatt_notify := fun _ _ => -12;
                  during_notify := fun c => c |} in
  let busy := {| stack_sample := sample_zero;
                 bt_gatt_notify := fun _ _ => -12;
                 during_notify :=
                   fun c => (mem_cache_push 1 SIZE_MAX_32 fresh c).2 |} in
  let dropped := tx_timer_handler 1 SIZE_MAX_32 busy app cache in
  let requeued := tx_timer_handler 1 SIZE_MAX_32 quiet app cache in
  contents 1 cache = [smp] /\
  dropped.2 = [CallPop true; CallNotify 1 smp (-12); CallPush smp false] /\
  contents 1 dropped.1.1 = [fresh] /\
  requeued.2 = [CallPop true; CallNotify 1 smp (-12); CallPush smp true] /\
  contents 1 requeued.1.1 = [smp] /\
  dropped.1.2 = [LOG_WRN_notify_failed (-12)] /\
  dropped.1.2 = requeued.1.2.
Proof. vm_compute. repeat split; reflexivity. Qed.

(* ===================================================================== *)
(** * The further properties at concrete inputs                           *)
(* ===================================================================== *)

Lemma example_cache_inv : mem_cache_inv 4 example_cache.
Proof. concrete_inv. Defined.

Lemma size_max_32_ok : 0 < 4 <= SIZE_MAX_32.
Proof. unfold SIZE_MAX_32. lia. Defined.

Lemma run_ops_cursors_in_bounds_witness :
  let ops := [OpPush (sample_of 1); OpPop (sample_of 0); OpPop (sample_of 0);
              OpPush (sample_of 2); OpPush (sample_of 3)] in
  let cache := (run_ops 4 SIZE_MAX_32 ops (mem_cache_init (cache_static 4))).2 in
  length (data cache) = Z.to_nat 4 /\
  0 <= write_idx cache < 4 /\
  0 <= read_idx cache < 4 /\
  write_idx cache = (read_idx cache + count cache) mod 4.
Proof.
  cbv zeta.
  refine (run_ops_cursors_in_bounds 4 SIZE_MAX_32 size_max_32_ok _
            (cache_static 4) _).
  reflexivity.
Defined.

Lemma mem_cache_push_appends_witness :
  let r := mem_cache_push 4 SIZE_MAX_32 (sample_of 7) example_cache in
  r.1 = true /\
  mem_cache_inv 4 r.2 /\
  contents 4 r.2 = contents 4 example_cache ++ [sample_of 7] /\
  count r.2 = count example_cache + 1.
Proof.
  cbv zeta.
  refine (mem_cache_push_appends 4 SIZE_MAX_32 size_max_32_ok _ _
            example_cache_inv _).
  cbn. lia.
Defined.

Lemma mem_cache_pop_oldest_witness :
  let r := mem_cache_pop 4 SIZE_MAX_32 (sample_of 0) example_cache in
  r.1.1 = true /\
  mem_cache_inv 4 r.2 /\
  contents 4 example_cache = r.1.2 :: contents 4 r.2 /\
  count r.2 = count example_cache - 1 /\
  data r.2 = data example_cache.
Proof.
  cbv zeta.
  refine (mem_cache_pop_oldest 4 SIZE_MAX_32 size_max_32_ok _ _
            example_cache_inv _).
  cbn. lia.
Defined.

Lemma run_ops_fifo_accepted_witness :
  let ops := [OpPush (sample_of 1); OpPush (sample_of 2); OpPush (sample_of 3);
              OpPush (sample_of 4); OpPush (sample_of 5); OpPop (sample_of 0);
              OpPush (sample_of 6)] in
  let r := run_ops 4 SIZE_MAX_32 ops (mem_cache_init (cache_static 4)) in
  accepted r.1 = popped r.1 ++ contents 4 r.2 /\
  popped r.1 = take (length (popped r.1)) (accepted r.1).
Proof.
  cbv zeta.
  refine (run_ops_fifo_accepted 4 SIZE_MAX_32 size_max_32_ok _
            (cache_static 4) _).
  reflexivity.
Defined.

Lemma mem_cache_count_queue_length_witness :
  mem_cache_count example_cache =
    (Z.of_nat (length (contents 4 example_cache)), example_cache).
Proof.
  exact (mem_cache_count_queue_length 4 SIZE_MAX_32 size_max_32_ok
           example_cache example_cache_inv).
Defined.

Lemma run_ops_cursor_positions_witness :
  let ops := [OpPush (sample_of 1); OpPush (sample_of 2); OpPop (sample_of 0);
              OpPush (sample_of 3); OpPush (sample_of 4); OpPush (sample_of 5)] in
  let r := run_ops 4 SIZE_MAX_32 ops (mem_cache_init (cache_static 4)) in
  write_idx r.2 = Z.of_nat (length (accepted r.1)) mod 4 /\
  read_idx r.2 = Z.of_nat (length (popped r.1)) mod 4.
Proof.
  cbv zeta.
  refine (run_ops_cursor_positions 4 SIZE_MAX_32 size_max_32_ok _
            (cache_static 4) _).
  reflexivity.
Defined.

Lemma push_all_keeps_first_capacity_witness :
  let l := [sample_of 1; sample_of 2; sample_of 3; sample_of 4; sample_of 5;
            sample_of 6] in
  let r := run_ops 4 SIZE_MAX_32 (map OpPush l) (mem_cache_init (cache_static 4)) in
  accepted r.1 = take (Z.to_nat 4) l /\
  contents 4 r.2 = take (Z.to_nat 4) l /\
  count r.2 = Z.min 4 (Z.of_nat (length l)).
Proof.
  cbv zeta.
  refine (push_all_keeps_first_capacity 4 SIZE_MAX_32 size_max_32_ok _
            (cache_static 4) _).
  reflexivity.
Defined.

Lemma pop_all_drains_in_order_witness :
  let outs := [sample_of 0; sample_of 0; sample_of 0] in
  let r := run_ops 4 SIZE_MAX_32 (map OpPop outs) example_cache in
  popped r.1 = contents 4 example_cache /\ count r.2 = 0.
Proof.
  cbv zeta.
  refine (pop_all_drains_in_order 4 SIZE_MAX_32 size_max_32_ok _ _
            example_cache_inv _).
  cbn. lia.
Defined.

Lemma tx_timer_handler_delivers_oldest_witness :
  exists cache1,
    tx_timer_handler 4 SIZE_MAX_32 (example_env 0) example_app example_cache =
      (during_notify (example_env 0) cache1, [],
       [CallPop true; CallNotify (current_conn example_app) (sample_of 4) 0]) /\
    mem_cache_inv 4 cache1 /\
    contents 4 cache1 = [sample_of 1].
Proof.
  refine (tx_timer_handler_delivers_oldest 4 SIZE_MAX_32 size_max_32_ok
            (example_env 0) example_app example_cache (sample_of 4)
            [sample_of 1] _ _ example_cache_inv _ _);
    [discriminate | reflexivity | reflexivity | reflexivity].
Defined.

Lemma tx_timer_handler_failed_delivery_rotates_witness :
  let r := tx_timer_handler 4 SIZE_MAX_32 (example_env (-12)) example_app
                            example_cache in
  mem_cache_inv 4 r.1.1 /\
  contents 4 r.1.1 = [sample_of 1] ++ [sample_of 4] /\
  count r.1.1 = count example_cache /\
  r.1.2 = [LOG_WRN_notify_failed (-12)] /\
  r.2 = [CallPop true; CallNotify (current_conn example_app) (sample_of 4) (-12);
         CallPush (sample_of 4) true].
Proof.
  cbv zeta.
  refine (tx_timer_handler_failed_delivery_rotates 4 SIZE_MAX_32 size_max_32_ok
            (example_env (-12)) example_app example_cache (sample_of 4)
            [sample_of 1] _ _ example_cache_inv _ _ _);
    [discriminate | reflexivity | reflexivity | reflexivity | discriminate].
Defined.

Lemma tx_timer_handler_empty_cache_witness :
  tx_timer_handler 4 SIZE_MAX_32 (example_env 0) example_app
                   (mem_cache_init (cache_static 4))
  = (mem_cache_init (cache_static 4), [], [CallPop false]).
Proof.
  apply tx_timer_handler_empty_cache; [discriminate | reflexivity | reflexivity].
Defined.

Lemma sample_timer_handler_enqueues_witness :
  let r := sample_timer_handler 4 SIZE_MAX_32 Z rand_lcg 42 example_cache in
  r.1.1 = (gen_sample Z rand_lcg 42).2 /\
  mem_cache_inv 4 r.1.2 /\
  contents 4 r.1.2 = contents 4 example_cache ++ [(gen_sample Z rand_lcg 42).1] /\
  r.2 = [].
Proof.
  cbv zeta.
  refine (sample_timer_handler_enqueues 4 SIZE_MAX_32 Z rand_lcg size_max_32_ok
            42 example_cache example_cache_inv _).
  cbn. lia.
Defined.

Lemma sample_timer_handler_drops_when_full_witness :
  let cache := {| data := [sample_of 1; sample_of 2];
                  write_idx := 1; read_idx := 1; count := 2 |} in
  sample_timer_handler 2 SIZE_MAX_32 Z rand_lcg 42 cache =
    ((gen_sample Z rand_lcg 42).2, cache, [LOG_WRN_cache_full]).
Proof. cbv zeta. apply sample_timer_handler_drops_when_full. reflexivity. Defined.

Lemma tx_gate_closed_after_disconnect_witness :
  let app1 := (disconnected 19 example_app).1 in
  let app2 := (connected (fun c => c) 7 62 app1).1 in
  tx_timer_handler 4 SIZE_MAX_32 (example_env 0) app1 example_cache =
    (example_cache, [], []) /\
  tx_timer_handler 4 SIZE_MAX_32 (example_env 0) app2 example_cache =
    (example_cache, [], []).
Proof.
  cbv zeta. apply tx_gate_closed_after_disconnect. discriminate.
Defined.

Lemma subscription_survives_reconnect_witness :
  let app' := (connected (fun c => c) 7 0 (disconnected 19 example_app).1).1 in
  exists calls,
    (tx_timer_handler 4 SIZE_MAX_32 (example_env 0) app' example_cache).2 =
      CallPop true :: CallNotify 7 (sample_of 4) 0 :: calls.
Proof.
  cbv zeta.
  refine (subscription_survives_reconnect 4 SIZE_MAX_32 (fun c => c)
            size_max_32_ok (example_env 0) example_app example_cache 19 7
            (sample_of 4) [sample_of 1] _ _ example_cache_inv _);
    [reflexivity | discriminate | reflexivity].
Defined.

Lemma main_loop_idle_without_events_witness :
  main_loop [0; -5; 0] example_app = (Some example_app, []).
Proof. apply main_loop_idle_without_events; reflexivity. Defined.

Lemma main_start_first_pass_witness :
  main_start (-19) app_data_static =
    (None, [LOG_INF_starting; LOG_INF_service_initialized;
            LOG_ERR_bt_enable_failed (-19)]).
Proof.
  refine (proj1 (main_start_first_pass app_data_static (-19) 0 _) _);
    [reflexivity | discriminate].
Defined.

Lemma uint16_to_double_sign_flip_witness :
  uint16_to_double (0x3C00 + 32768) = PrimFloat.opp (uint16_to_double 0x3C00).
Proof. apply uint16_to_double_sign_flip. lia. Defined.

Lemma uint16_to_double_range_witness :
  uint16_to_double 0x7BFF = nan \/
  uint16_to_double 0x7BFF = infinity \/
  uint16_to_double 0x7BFF = neg_infinity \/
  exists q : Q,
    is_double (uint16_to_double 0x7BFF) (f16_sign 0x7BFF) q /\ (q <= F16_MAX)%Q.
Proof. apply uint16_to_double_range. lia. Defined.

Lemma uint16_to_double_monotone_witness :
  exists qu qv : Q,
    is_double (uint16_to_double 0x03FF) false qu /\
    is_double (uint16_to_double 0x0400) false qv /\
    (qu < qv)%Q.
Proof. apply uint16_to_double_monotone; lia. Defined.
